(** * GraphViewer: the graph interaction and presentation-state engine

    A shallow embedding of [src/app/components/GraphViewer.tsx]: the
    category filter, the level-of-detail clusterer, the hover handlers,
    the external-result mapper, the category check boxes, the progressive
    reveal loop and the layout offload gate; then the properties the
    specification states about them.

    Conventions.
    - A JavaScript object is a record of the fields the component reads,
      together with its identity ([node_oid], [link_oid]): two objects are
      the same object exactly when their identities agree.  A
      [Set<CustomNode>] is a finite set of identities.
    - An optional field of a node or a link is an [option]; [undefined]
      and [null] are [None], the component reading such a field with [?.]
      or for its truthiness only.  The [text] of a response item, which
      is compared with [===], keeps the two apart ([JsText]).
    - [human_readable_id] and a response item's [id] hold the text that
      [.toString()] yields, the only way the component reads them.
    - Positions and the zoom factor are rationals. *)

From Stdlib Require Import Ascii String QArith Qround.
From stdpp Require Import gmap strings list pretty.

Set Warnings "-clear-no-such-hyp".

Local Open Scope string_scope.
Local Open Scope list_scope.

(** ** Data model *)

Definition oid := positive.

Record CustomNode := mkNode {
  node_oid : oid;
  id : string;
  uuid : string;
  name : string;
  type : option string;
  human_readable_id : option string;
  covariate_type : option string;
  text : option string;
  x : option Q;
  y : option Q;
  degree : option nat;
  neighbors : option (list oid);
  links : option (list oid)
}.

(** [link.source] and [link.target]: a raw node identifier, or, once the
    layout has resolved it, the node object itself. *)
Inductive endpoint :=
  | EId (s : string)
  | ENode (n : CustomNode).

Record CustomLink := mkLink {
  link_oid : oid;
  source : endpoint;
  target : endpoint;
  link_type : string;
  link_human_readable_id : option string
}.

(** [{ nodes, links }]; the second field is [graph_links] here, [links]
    being the field of a node. *)
Record CustomGraphData := mkGraph {
  nodes : list CustomNode;
  graph_links : list CustomLink
}.

(** [typeof e === 'object' ? (e as CustomNode).id : e] *)
Definition endpoint_id (e : endpoint) : string :=
  match e with
  | EId s => s
  | ENode n => id n
  end.

(** JavaScript truthiness of an optional string: [undefined] and the
    empty string are falsy. *)
Definition truthy (o : option string) : bool :=
  match o with
  | Some s => negb (String.eqb s "")
  | None => false
  end.

(** ** Category filter *)

Record Flags := mkFlags {
  includeDocuments : bool;
  includeTextUnits : bool;
  includeCommunities : bool;
  includeCovariates : bool
}.

(** [String.prototype.toLowerCase] on the letters A to Z.  The filter
    compares the result with four lower-case ASCII words, none of which
    holds a letter that a character outside A to Z maps to. *)
Definition lower_ascii (c : ascii) : ascii :=
  let n := nat_of_ascii c in
  if (65 <=? n)%nat && (n <=? 90)%nat then ascii_of_nat (n + 32) else c.

Fixpoint toLowerCase (s : string) : string :=
  match s with
  | EmptyString => EmptyString
  | String c rest => String (lower_ascii c) (toLowerCase rest)
  end.

(** [degree: node.neighbors?.length || 0] on a fresh copy of the node;
    the copies take the identities [next], [next + 1], ... *)
Definition optimizedNode (fresh : oid) (node : CustomNode) : CustomNode :=
  {| node_oid := fresh;
     id := id node;
     uuid := uuid node;
     name := name node;
     type := type node;
     human_readable_id := human_readable_id node;
     covariate_type := covariate_type node;
     text := text node;
     x := x node;
     y := y node;
     degree := Some (match neighbors node with
                     | Some l => length l
                     | None => 0
                     end);
     neighbors := neighbors node;
     links := links node |}.

Fixpoint optimizedNodes (next : oid) (ns : list CustomNode) : list CustomNode :=
  match ns with
  | [] => []
  | node :: rest => optimizedNode next node :: optimizedNodes (Pos.succ next) rest
  end.

(** The [switch (node.type?.toLowerCase())] of the node filter. *)
Definition keepNode (f : Flags) (node : CustomNode) : bool :=
  match type node with
  | None => true
  | Some t =>
      let t := toLowerCase t in
      if String.eqb t "textunit" then includeTextUnits f
      else if String.eqb t "community" then includeCommunities f
      else if String.eqb t "covariate" then includeCovariates f
      else if String.eqb t "document" then includeDocuments f
      else true
  end.

Definition keepLink (nodeIds : gset string) (link : CustomLink) : bool :=
  bool_decide (endpoint_id (source link) ∈ nodeIds)
  && bool_decide (endpoint_id (target link) ∈ nodeIds).

Definition filteredGraphData (next : oid) (data : CustomGraphData) (f : Flags)
  : CustomGraphData :=
  let filteredNodes := List.filter (keepNode f) (optimizedNodes next (nodes data)) in
  let nodeIds : gset string := list_to_set (map id filteredNodes) in
  let filteredLinks := List.filter (keepLink nodeIds) (graph_links data) in
  {| nodes := filteredNodes; graph_links := filteredLinks |}.

(** An endpoint survives in a node list when some node of the list
    carries its id. *)
Definition survives (ns : list CustomNode) (e : endpoint) : bool :=
  existsb (fun n => String.eqb (id n) (endpoint_id e)) ns.

(** ** Level-of-detail clusterer *)

(** [clusterThreshold], a state cell that is never written after its
    initial value. *)
Definition clusterThreshold : Q := 100.

(** [Math.round]: the nearest integer, halves towards plus infinity. *)
Definition Math_round (q : Q) : Z := Qfloor (q + (1 # 2)).

(** One component of the cell key, [Math.round(c / threshold)]; a missing
    coordinate gives [NaN], here [None]. *)
Definition cellCoord (threshold : Q) (c : option Q) : option Z :=
  match c with
  | Some v => Some (Math_round (v / threshold))
  | None => None
  end.

(** The cell key.  The source renders the two components into the text
    [a,b]; the pair determines that text and is determined by it. *)
Definition cell : Type := option Z * option Z.

Definition clusterKey (threshold : Q) (node : CustomNode) : cell :=
  (cellCoord threshold (x node), cellCoord threshold (y node)).

(** The [clusters] object: its keys in insertion order, each with the
    array stored under it. *)
Definition Clusters : Type := list (cell * list CustomNode).

(** [if (!clusters[key]) clusters[key] = []; clusters[key].push(node)] *)
Fixpoint pushNode (key : cell) (node : CustomNode) (clusters : Clusters) : Clusters :=
  match clusters with
  | [] => [(key, [node])]
  | (k, members) :: rest =>
      if decide (k = key) then (k, members ++ [node]) :: rest
      else (k, members) :: pushNode key node rest
  end.

Definition groupCells (threshold : Q) (ns : list CustomNode) : Clusters :=
  fold_left (fun clusters node => pushNode (clusterKey threshold node) node clusters)
            ns [].

(** The synthetic node built for a cell of several members.  Its [size],
    [Math.sqrt(cluster.length) * NODE_R], is a floating-point number and is
    left out; [cluster: true] is the constructor [Clustered] below. *)
Record ClusterNode := mkCluster {
  cluster_id : string;
  cluster_uuid : string;
  cluster_name : string;
  cluster_type : string;
  cluster_nodes : list CustomNode
}.

Inductive GraphNode :=
  | Plain (n : CustomNode)
  | Clustered (c : ClusterNode).

Definition graphNode_id (g : GraphNode) : string :=
  match g with
  | Plain n => id n
  | Clustered c => cluster_id c
  end.

(** [Array.prototype.join] *)
Definition join (sep : string) (parts : list string) : string :=
  String.concat sep parts.

Definition makeCluster (cluster : list CustomNode) : ClusterNode :=
  {| cluster_id := "cluster-" ++ join "-" (map id cluster);
     cluster_uuid := "cluster-" ++ join "-" (map uuid cluster);
     cluster_name := "Cluster (" ++ pretty (length cluster) ++ ")";
     cluster_type := "cluster";
     cluster_nodes := cluster |}.

(** The body of [Object.values(clusters).map(...)]. *)
Definition cellNode (cluster : list CustomNode) : GraphNode :=
  match cluster with
  | [only] => Plain only
  | _ => Clustered (makeCluster cluster)
  end.

Definition clusterNodes (ns : list CustomNode) (threshold : Q) : list GraphNode :=
  map (fun entry => cellNode (snd entry)) (groupCells threshold ns).

Definition Qltb (a b : Q) : bool := negb (Qle_bool b a).

Definition clusteredData (data : CustomGraphData) (graphZoom : Q)
  : list GraphNode * list CustomLink :=
  (if Qltb graphZoom (1 # 2) then clusterNodes (nodes data) clusterThreshold
   else map Plain (nodes data),
   graph_links data).

(** [node.degree > 2]; an absent degree compares false. *)
Definition degree_gt2 (node : CustomNode) : bool :=
  match degree node with
  | Some d => (2 <? d)%nat
  | None => false
  end.

Definition nodeVisibility (graphZoom : Q) (node : CustomNode) : bool :=
  if Qltb graphZoom (1 # 2) then degree_gt2 node else true.

Definition linkVisibility (graphZoom : Q) (link : CustomLink) : bool :=
  if Qltb graphZoom (1 # 2) then
    match source link, target link with
    | ENode s, ENode t => degree_gt2 s || degree_gt2 t
    | _, _ => false
    end
  else true.

(** The clustering in the words of its contract: the cells met, in the
    order of their first node, and the nodes of each cell in input
    order. *)
Fixpoint distinctKeys (ks : list cell) : list cell :=
  match ks with
  | [] => []
  | k :: rest => k :: filter (fun k' => k' <> k) (distinctKeys rest)
  end.

Definition cellMembers (threshold : Q) (ns : list CustomNode) (k : cell)
  : list CustomNode :=
  filter (fun n => clusterKey threshold n = k) ns.

Definition cellsOf (threshold : Q) (ns : list CustomNode) : Clusters :=
  map (fun k => (k, cellMembers threshold ns k))
      (distinctKeys (map (clusterKey threshold) ns)).

(** ** Highlight state *)

Record HighlightState := mkHighlight {
  highlightNodes : gset oid;
  highlightLinks : gset oid;
  hoverNode : option CustomNode
}.

(** [set.add(x)] *)
Definition Set_add (x : oid) (s : gset oid) : gset oid := s ∪ {[ x ]}.

(** [arr?.forEach(x => set.add(x))] *)
Definition addAll (arr : option (list oid)) (s : gset oid) : gset oid :=
  match arr with
  | Some l => fold_left (fun acc x => Set_add x acc) l s
  | None => s
  end.

Definition handleNodeHover (node : option CustomNode) (st : HighlightState)
  : HighlightState :=
  let newHighlightNodes :=
    match node with
    | Some n => addAll (neighbors n) (Set_add (node_oid n) ∅)
    | None => ∅
    end in
  let newHighlightLinks :=
    match node with
    | Some n => addAll (links n) ∅
    | None => ∅
    end in
  {| highlightNodes := newHighlightNodes;
     highlightLinks := newHighlightLinks;
     hoverNode := node |}.

(** [if (typeof e !== "string") set.add(e)] *)
Definition addResolved (e : endpoint) (s : gset oid) : gset oid :=
  match e with
  | EId _ => s
  | ENode n => Set_add (node_oid n) s
  end.

Definition handleLinkHover (link : option CustomLink) (st : HighlightState)
  : HighlightState :=
  let newHighlightNodes :=
    match link with
    | Some l => addResolved (target l) (addResolved (source l) ∅)
    | None => ∅
    end in
  let newHighlightLinks :=
    match link with
    | Some l => Set_add (link_oid l) ∅
    | None => ∅
    end in
  {| highlightNodes := newHighlightNodes;
     highlightLinks := newHighlightLinks;
     hoverNode := hoverNode st |}.

(** ** Hover wiring *)

Definition HoverCallback : Type :=
  option CustomNode -> HighlightState -> HighlightState.

(** A pointer hover reported by the graph component: the time of the
    event in milliseconds and the node under the pointer. *)
Definition HoverEvent : Type := nat * option CustomNode.

(** [onNodeHover={showHighlight ? handleNodeHover : undefined}] *)
Definition onNodeHover (showHighlight : bool) : option HoverCallback :=
  if showHighlight then Some handleNodeHover else None.

(** The graph component calls the prop, when there is one, once for every
    pointer hover.  The result lists the highlight states the calls
    produce, oldest first: one entry for each recomputation. *)
Fixpoint pointerHovers (prop : option HoverCallback) (events : list HoverEvent)
    (st : HighlightState) : list HighlightState :=
  match events with
  | [] => []
  | (_, node) :: rest =>
      match prop with
      | Some callback =>
          let st' := callback node st in
          st' :: pointerHovers prop rest st'
      | None => pointerHovers prop rest st
      end
  end.

(** lodash's [debounce(func, wait)], after its documentation: [func] runs
    once [wait] milliseconds have passed since the last call of the
    debounced function, with the arguments of that call.  Given the calls
    of the debounced function in time order, the result is the calls that
    reach [func]. *)
Fixpoint debounce {A : Type} (wait : nat) (calls : list (nat * A)) : list (nat * A) :=
  match calls with
  | [] => []
  | (t, a) :: rest =>
      match rest with
      | [] => [((t + wait)%nat, a)]
      | (t', _) :: _ =>
          if (t' <? t + wait)%nat then debounce wait rest
          else ((t + wait)%nat, a) :: debounce wait rest
      end
  end.

(** [debounce((node) => { handleNodeHover(node); }, 100)], which no prop
    of the graph component receives. *)
Definition debouncedHandleNodeHover (events : list HoverEvent) (st : HighlightState)
  : list HighlightState :=
  pointerHovers (Some handleNodeHover) (debounce 100 events) st.

(** ** External-result mapper *)

(** The value of [item.text]: the property is missing ([undefined]), is
    [null], or holds a string. *)
Inductive JsText :=
  | TextUndefined
  | TextNull
  | TextString (s : string).

(** An element of one of the arrays of [context_data] that carries an
    [id].  Every rule but the one for sources reads [item.id.toString()],
    which throws on an item without [id]: [setGraphData] is not reached
    then, and the [catch] of [handleApiSearch] logs the error.  The rule
    for sources reads [item.text]. *)
Record Item := mkItem {
  item_id : string;
  item_text : JsText
}.

(** A property value of [context_data]: an array of items, or anything
    else ([Array.isArray(items)] is false). *)
Inductive ContextValue :=
  | VArray (items : list Item)
  | VOther.

(** [Object.entries(contextData)]: the properties in insertion order. *)
Definition ContextData : Type := list (string * ContextValue).

Record SearchResult := mkSearchResult {
  response : string;
  context_data : option ContextData
}.

Record MapperState := mkMapper {
  graphData : CustomGraphData;
  initialGraphData : CustomGraphData;
  apiSearchResults : option SearchResult
}.

(** [x.human_readable_id?.toString() === item.id.toString()] *)
Definition sameReference (h : option string) (item : Item) : bool :=
  match h with
  | Some s => String.eqb s (item_id item)
  | None => false
  end.

(** [node.text?.toString() === item.text]: the left side is [undefined]
    for a node without text and is never [null], so an item whose text is
    [null] equals the text of no node. *)
Definition sameText (t : option string) (item : Item) : bool :=
  match t, item_text item with
  | Some a, TextString b => String.eqb a b
  | None, TextUndefined => true
  | _, _ => false
  end.

Definition relationshipRule (item : Item) (link : CustomLink) : bool :=
  sameReference (link_human_readable_id link) item.

Definition entityRule (item : Item) (node : CustomNode) : bool :=
  sameReference (human_readable_id node) item && negb (truthy (covariate_type node)).

Definition reportRule (item : Item) (node : CustomNode) : bool :=
  String.eqb (uuid node) (item_id item).

Definition sourceRule (item : Item) (node : CustomNode) : bool :=
  sameText (text node) item.

Definition covariateRule (item : Item) (node : CustomNode) : bool :=
  sameReference (human_readable_id node) item && truthy (covariate_type node).

(** [if (existing) arr.push(existing)] *)
Definition pushFound {A : Type} (existing : option A) (arr : list A) : list A :=
  match existing with
  | Some e => arr ++ [e]
  | None => arr
  end.

(** The body of [items.forEach((item) => ...)], on the two arrays
    [newNodes] and [newLinks]. *)
Definition mapItem (baseGraphData : CustomGraphData) (key : string)
    (acc : list CustomNode * list CustomLink) (item : Item)
  : list CustomNode * list CustomLink :=
  let '(newNodes, newLinks) := acc in
  if String.eqb key "relationships" then
    (newNodes,
     pushFound (List.find (relationshipRule item) (graph_links baseGraphData)) newLinks)
  else if String.eqb key "entities" then
    (pushFound (List.find (entityRule item) (nodes baseGraphData)) newNodes, newLinks)
  else if String.eqb key "reports" then
    (pushFound (List.find (reportRule item) (nodes baseGraphData)) newNodes, newLinks)
  else if String.eqb key "sources" then
    (pushFound (List.find (sourceRule item) (nodes baseGraphData)) newNodes, newLinks)
  else if String.eqb key "covariates" || String.eqb key "claims" then
    (pushFound (List.find (covariateRule item) (nodes baseGraphData)) newNodes, newLinks)
  else acc.

(** The body of [Object.entries(contextData).forEach(([key, items]) => ...)]. *)
Definition mapEntry (baseGraphData : CustomGraphData)
    (acc : list CustomNode * list CustomLink) (entry : string * ContextValue)
  : list CustomNode * list CustomLink :=
  match snd entry with
  | VArray items => fold_left (mapItem baseGraphData (fst entry)) items acc
  | VOther => acc
  end.

Definition updateGraphData (contextData : option ContextData) (st : MapperState)
  : MapperState :=
  match contextData with
  | None => st
  | Some entries =>
      let baseGraphData := initialGraphData st in
      let '(newNodes, newLinks) := fold_left (mapEntry baseGraphData) entries ([], []) in
      {| graphData := {| nodes := newNodes; graph_links := newLinks |};
         initialGraphData := initialGraphData st;
         apiSearchResults := apiSearchResults st |}
  end.

(** [handleApiSearch] once the remote call has settled: [None] when it
    threw (the [catch] only logs), the response otherwise. *)
Definition handleApiSearch (outcome : option SearchResult) (st : MapperState)
  : MapperState :=
  match outcome with
  | None => st
  | Some data =>
      updateGraphData (context_data data)
        {| graphData := graphData st;
           initialGraphData := initialGraphData st;
           apiSearchResults := Some data |}
  end.

(** The mapper in the words of its contract: the rule of each key, and
    every item resolved by the rule of its key to the first matching
    element of the base snapshot, or to nothing. *)
Definition nodeRule (key : string) (item : Item) (node : CustomNode) : bool :=
  if String.eqb key "entities" then entityRule item node
  else if String.eqb key "reports" then reportRule item node
  else if String.eqb key "sources" then sourceRule item node
  else if String.eqb key "covariates" then covariateRule item node
  else if String.eqb key "claims" then covariateRule item node
  else false.

Definition linkRule (key : string) (item : Item) (link : CustomLink) : bool :=
  if String.eqb key "relationships" then relationshipRule item link else false.

Definition resolveNode (base : CustomGraphData) (key : string) (item : Item)
  : option CustomNode :=
  List.find (nodeRule key item) (nodes base).

Definition resolveLink (base : CustomGraphData) (key : string) (item : Item)
  : option CustomLink :=
  List.find (linkRule key item) (graph_links base).

Definition entryItems (entry : string * ContextValue) : list (string * Item) :=
  match snd entry with
  | VArray items => map (fun item => (fst entry, item)) items
  | VOther => []
  end.

(** Every item of the response with the key it stands under, in response
    order. *)
Definition responseItems (entries : ContextData) : list (string * Item) :=
  flat_map entryItems entries.

Definition matchedNodes (base : CustomGraphData) (entries : ContextData)
  : list CustomNode :=
  omap (fun ki => resolveNode base (fst ki) (snd ki)) (responseItems entries).

Definition matchedLinks (base : CustomGraphData) (entries : ContextData)
  : list CustomLink :=
  omap (fun ki => resolveLink base (fst ki) (snd ki)) (responseItems entries).

(** The match rules as the contract words them, on the fields of the
    elements and with no use of the callbacks above.  A node has a
    claim/covariate marker when [covariate_type] holds a string that is
    not empty. *)
Definition hasMarker (node : CustomNode) : Prop :=
  match covariate_type node with
  | Some marker => marker <> ""
  | None => False
  end.

(** The text content of a node: a string, or none. *)
Definition textContent (node : CustomNode) : JsText :=
  match text node with
  | Some s => TextString s
  | None => TextUndefined
  end.

(** Entities by external reference id on nodes without a marker; reports
    by internal uuid; sources by text content; covariates and claims by
    external reference id on nodes with a marker. *)
Definition specNodeMatch (key : string) (item : Item) (node : CustomNode) : Prop :=
  (key = "entities"
     /\ human_readable_id node = Some (item_id item) /\ ~ hasMarker node)
  \/ (key = "reports" /\ uuid node = item_id item)
  \/ (key = "sources" /\ textContent node = item_text item)
  \/ ((key = "covariates" \/ key = "claims")
        /\ human_readable_id node = Some (item_id item) /\ hasMarker node).

(** Relationships by external reference id on links. *)
Definition specLinkMatch (key : string) (item : Item) (link : CustomLink) : Prop :=
  key = "relationships" /\ link_human_readable_id link = Some (item_id item).

#[global] Instance JsText_eq_dec : EqDecision JsText.
Proof. solve_decision. Defined.

#[global] Instance hasMarker_dec (node : CustomNode) : Decision (hasMarker node).
Proof. unfold hasMarker. destruct (covariate_type node); apply _. Defined.

#[global] Instance specNodeMatch_dec (key : string) (item : Item) (node : CustomNode) :
  Decision (specNodeMatch key item node).
Proof. unfold specNodeMatch. apply _. Defined.

#[global] Instance specLinkMatch_dec (key : string) (item : Item) (link : CustomLink) :
  Decision (specLinkMatch key item link).
Proof. unfold specLinkMatch. apply _. Defined.




(** ** Category check boxes *)

Definition setIncludeDocuments (v : bool) (f : Flags) : Flags :=
  {| includeDocuments := v;
     includeTextUnits := includeTextUnits f;
     includeCommunities := includeCommunities f;
     includeCovariates := includeCovariates f |}.

Definition setIncludeTextUnits (v : bool) (f : Flags) : Flags :=
  {| includeDocuments := includeDocuments f;
     includeTextUnits := v;
     includeCommunities := includeCommunities f;
     includeCovariates := includeCovariates f |}.

Definition setIncludeCommunities (v : bool) (f : Flags) : Flags :=
  {| includeDocuments := includeDocuments f;
     includeTextUnits := includeTextUnits f;
     includeCommunities := v;
     includeCovariates := includeCovariates f |}.

Definition setIncludeCovariates (v : bool) (f : Flags) : Flags :=
  {| includeDocuments := includeDocuments f;
     includeTextUnits := includeTextUnits f;
     includeCommunities := includeCommunities f;
     includeCovariates := v |}.

(** The [onChange] handlers of the four check boxes.  Each reads the flags
    of the current render and calls the setters of the parent. *)
Definition onChangeDocuments (f : Flags) : Flags :=
  setIncludeDocuments (negb (includeDocuments f)) f.

Definition onChangeTextUnits (f : Flags) : Flags :=
  if negb (includeTextUnits f) then setIncludeTextUnits true f
  else if includeTextUnits f && negb (includeCovariates f) then
    setIncludeTextUnits false f
  else setIncludeCovariates false (setIncludeTextUnits false f).

Definition onChangeCommunities (f : Flags) : Flags :=
  setIncludeCommunities (negb (includeCommunities f)) f.

Definition onChangeCovariates (f : Flags) : Flags :=
  if negb (includeCovariates f) then
    setIncludeCovariates true
      (if negb (includeTextUnits f) then setIncludeTextUnits true f else f)
  else setIncludeCovariates false f.

Inductive Category := Documents | TextUnits | Communities | Covariates.

(** The props the check boxes read: the four flags and the four "category
    is present" booleans. *)
Record CategoryProps := mkCategoryProps {
  flags : Flags;
  hasDocuments : bool;
  hasTextUnits : bool;
  hasCommunities : bool;
  hasCovariates : bool
}.

Definition has (c : Category) (props : CategoryProps) : bool :=
  match c with
  | Documents => hasDocuments props
  | TextUnits => hasTextUnits props
  | Communities => hasCommunities props
  | Covariates => hasCovariates props
  end.

(** [apiSearchResults !== null] *)
Definition notNull (apiSearchResults : option SearchResult) : bool :=
  match apiSearchResults with
  | Some _ => true
  | None => false
  end.

(** [disabled={!hasX || apiSearchResults !== null}] *)
Definition disabled (c : Category) (props : CategoryProps)
    (apiSearchResults : option SearchResult) : bool :=
  negb (has c props) || notNull apiSearchResults.

Definition onChange (c : Category) : Flags -> Flags :=
  match c with
  | Documents => onChangeDocuments
  | TextUnits => onChangeTextUnits
  | Communities => onChangeCommunities
  | Covariates => onChangeCovariates
  end.

(** A click on a check box: a disabled check box does not call its
    [onChange]; an enabled one hands the new flags to the parent, which
    renders the component with them. *)
Definition clickCheckbox (c : Category) (apiSearchResults : option SearchResult)
    (props : CategoryProps) : CategoryProps :=
  if disabled c props apiSearchResults then props
  else {| flags := onChange c (flags props);
          hasDocuments := hasDocuments props;
          hasTextUnits := hasTextUnits props;
          hasCommunities := hasCommunities props;
          hasCovariates := hasCovariates props |}.

(** ** Progressive reveal *)

Definition chunkSize : nat := 100.

(** [Array.prototype.slice(a, b)] for indices within [0, b]. *)
Definition slice {A : Type} (a b : nat) (l : list A) : list A :=
  firstn (b - a) (skipn a l).

(** The closure [addNodes] of one run of the effect: the node array of
    the [data] it closes over and its own [currentIndex]. *)
Record AddNodes := mkAddNodes {
  loopNodes : list CustomNode;
  currentIndex : nat
}.

(** [visibleNodes], and the callbacks handed to [requestAnimationFrame]
    that wait for the next frame, in the order they were handed over. *)
Record RevealState := mkReveal {
  visibleNodes : list CustomNode;
  frameCallbacks : list AddNodes
}.

(** One call of [addNodes]. *)
Definition addNodes (loop : AddNodes) (st : RevealState) : RevealState :=
  let nextNodes :=
    slice (currentIndex loop) (currentIndex loop + chunkSize) (loopNodes loop) in
  let currentIndex' := (currentIndex loop + chunkSize)%nat in
  {| visibleNodes := visibleNodes st ++ nextNodes;
     frameCallbacks :=
       if (currentIndex' <? length (loopNodes loop))%nat then
         frameCallbacks st
           ++ [{| loopNodes := loopNodes loop; currentIndex := currentIndex' |}]
       else frameCallbacks st |}.

(** The effect that runs when [data] changes.  It returns no clean-up, so
    the callbacks of earlier runs stay scheduled. *)
Definition revealEffect (data : CustomGraphData) (st : RevealState) : RevealState :=
  {| visibleNodes := [];
     frameCallbacks :=
       frameCallbacks st ++ [{| loopNodes := nodes data; currentIndex := 0 |}] |}.

(** An animation frame: the callbacks scheduled before the frame run in
    order; what they schedule waits for the frame after. *)
Definition animationFrame (st : RevealState) : RevealState :=
  fold_left (fun s loop => addNodes loop s) (frameCallbacks st)
            {| visibleNodes := visibleNodes st; frameCallbacks := [] |}.

Inductive RevealEvent :=
  | NewSnapshot (data : CustomGraphData)
  | AnimationFrame.

Definition revealStep (st : RevealState) (ev : RevealEvent) : RevealState :=
  match ev with
  | NewSnapshot data => revealEffect data st
  | AnimationFrame => animationFrame st
  end.

(** The component after its first render with [data], then the events. *)
Definition revealRun (data : CustomGraphData) (events : list RevealEvent)
  : RevealState :=
  fold_left revealStep events
            (revealEffect data {| visibleNodes := []; frameCallbacks := [] |}).

(** ** Layout offload *)

(** The prop [data], the graph store, the flag [workerRunning], the
    messages posted to workers that have not answered yet (oldest first),
    and whether the component is still mounted. *)
Record Viewer := mkViewer {
  data : CustomGraphData;
  store : MapperState;
  workerRunning : bool;
  workers : list CustomGraphData;
  mounted : bool
}.

Definition setStore (s : MapperState) (v : Viewer) : Viewer :=
  {| data := data v; store := s; workerRunning := workerRunning v;
     workers := workers v; mounted := mounted v |}.

Definition setWorkerRunning (b : bool) (v : Viewer) : Viewer :=
  {| data := data v; store := store v; workerRunning := b;
     workers := workers v; mounted := mounted v |}.

Definition setWorkers (ws : list CustomGraphData) (v : Viewer) : Viewer :=
  {| data := data v; store := store v; workerRunning := workerRunning v;
     workers := ws; mounted := mounted v |}.

Definition setGraphData (g : CustomGraphData) (s : MapperState) : MapperState :=
  {| graphData := g; initialGraphData := initialGraphData s;
     apiSearchResults := apiSearchResults s |}.

(** [setGraphData(data); initialGraphData.current = data] *)
Definition dataEffect (v : Viewer) : Viewer :=
  setStore {| graphData := data v; initialGraphData := data v;
              apiSearchResults := apiSearchResults (store v) |} v.

(** The effect on [[data, workerRunning]]: start a worker, post [data] to
    it and raise the flag. *)
Definition workerEffect (v : Viewer) : Viewer :=
  if negb (workerRunning v) && (1000 <? length (nodes (data v)))%nat then
    setWorkerRunning true (setWorkers (workers v ++ [data v]) v)
  else v.

(** [worker.onmessage] *)
Definition onmessage (eventData : CustomGraphData) (v : Viewer) : Viewer :=
  setWorkerRunning false (setStore (setGraphData eventData (store v)) v).

Inductive OffloadEvent :=
  | NewData (d : CustomGraphData)
  | WorkerMessage (eventData : CustomGraphData)
  | WorkerError
  | Unmount.

(** One event and the renders it causes.  A worker event concerns the
    oldest worker that has not answered.  No [onerror] handler is
    installed and no effect has a clean-up, so an error and an unmount
    call nothing; state setters of an unmounted component do nothing.
    The worker effect runs again when [workerRunning] has changed. *)
Definition offloadStep (v : Viewer) (ev : OffloadEvent) : Viewer :=
  match ev with
  | NewData d =>
      if mounted v then
        workerEffect
          (dataEffect {| data := d; store := store v;
                         workerRunning := workerRunning v;
                         workers := workers v; mounted := true |})
      else v
  | WorkerMessage eventData =>
      match workers v with
      | [] => v
      | _ :: rest =>
          let v1 := setWorkers rest v in
          if mounted v1 then
            if workerRunning v1 then workerEffect (onmessage eventData v1)
            else onmessage eventData v1
          else v1
      end
  | WorkerError => setWorkers (tail (workers v)) v
  | Unmount =>
      {| data := data v; store := store v; workerRunning := workerRunning v;
         workers := workers v; mounted := false |}
  end.

(** The first render with [d] and the effects that follow it. *)
Definition mount (d : CustomGraphData) : Viewer :=
  workerEffect
    (dataEffect {| data := d;
                   store := {| graphData := d; initialGraphData := d;
                               apiSearchResults := None |};
                   workerRunning := false; workers := []; mounted := true |}).

Definition offloadRun (d : CustomGraphData) (events : list OffloadEvent) : Viewer :=
  fold_left offloadStep events (mount d).

(** The gate: at most one worker has not answered, and while one has not
    the flag is set. *)
Definition gateHolds (v : Viewer) : Prop :=
  length (workers v) <= 1 /\ (workers v <> [] -> workerRunning v = true).

(** ** Click selection *)

(** [selectedNode], [selectedRelationship], the linked context handed to
    the detail drawer (arrays of node and link objects, as their
    identities) and whether the drawer is open. *)
Record SelectionState := mkSelection {
  selectedNode : option CustomNode;
  selectedRelationship : option CustomLink;
  linkedNodes : list oid;
  linkedRelationships : list oid;
  bottomDrawerOpen : bool
}.

(** [arr || []] *)
Definition orEmpty (arr : option (list oid)) : list oid :=
  match arr with
  | Some l => l
  | None => []
  end.

Definition handleNodeClick (node : CustomNode) (st : SelectionState) : SelectionState :=
  {| selectedNode := Some node;
     selectedRelationship := None;
     linkedNodes := orEmpty (neighbors node);
     linkedRelationships := orEmpty (links node);
     bottomDrawerOpen := true |}.

(** [data.nodes.find((node) => node.id === wanted)] *)
Definition findById (data : CustomGraphData) (wanted : string) : option CustomNode :=
  List.find (fun node => String.eqb (id node) wanted) (nodes data).

Definition handleLinkClick (data : CustomGraphData) (link : CustomLink)
    (st : SelectionState) : SelectionState :=
  let linkSource := endpoint_id (source link) in
  let linkTarget := endpoint_id (target link) in
  match findById data linkSource, findById data linkTarget with
  | Some sourceNode, Some targetNode =>
      {| selectedNode := None;
         selectedRelationship := Some link;
         linkedNodes := [node_oid sourceNode; node_oid targetNode];
         linkedRelationships := [link_oid link];
         bottomDrawerOpen := true |}
  | _, _ =>
      {| selectedNode := None;
         selectedRelationship := Some link;
         linkedNodes := linkedNodes st;
         linkedRelationships := linkedRelationships st;
         bottomDrawerOpen := bottomDrawerOpen st |}
  end.

Inductive ClickEvent :=
  | NodeClick (node : CustomNode)
  | LinkClick (link : CustomLink).

Definition clickStep (data : CustomGraphData) (st : SelectionState) (ev : ClickEvent)
  : SelectionState :=
  match ev with
  | NodeClick node => handleNodeClick node st
  | LinkClick link => handleLinkClick data link st
  end.

(** The state of the first render: nothing selected, drawer closed. *)
Definition noSelection : SelectionState :=
  {| selectedNode := None; selectedRelationship := None;
     linkedNodes := []; linkedRelationships := []; bottomDrawerOpen := false |}.

(** ** Focus *)

Inductive GraphType := Graph2d | Graph3d.

(** The calls made on the graph component through [graphRef.current];
    an argument read from a node without a position is [undefined]. *)
Inductive CameraCall :=
  | CenterAt (cx cy : option Q) (ms : nat)
  | Zoom (k : Q) (ms : nat)
  | CameraPosition (px py : option Q) (pz : Q) (lx ly : option Q) (lz : Q) (ms : nat).

(** What a [setTimeout] callback of the focus handlers does. *)
Inductive Later :=
  | HoverNodeLater (node : CustomNode)
  | HoverLinkLater (link : CustomLink).

(** The highlight, the search drawer, the camera calls made so far and
    the pending timers with their delay in milliseconds. *)
Record FocusState := mkFocus {
  highlight : HighlightState;
  rightDrawerOpen : bool;
  cameraCalls : list CameraCall;
  timers : list (nat * Later)
}.

(** [handleFocusButtonClick].  The node set is built afresh; the links
    are added to the set held in [highlightLinks], which is not replaced.
    [graphMounted] says whether [graphRef.current] is set. *)
Definition handleFocusButtonClick (graphMounted : bool) (graphType : GraphType)
    (node : CustomNode) (st : FocusState) : FocusState :=
  let newHighlightNodes := addAll (neighbors node) (Set_add (node_oid node) ∅) in
  {| highlight :=
       {| highlightNodes := newHighlightNodes;
          highlightLinks := addAll (links node) (highlightLinks (highlight st));
          hoverNode := Some node |};
     rightDrawerOpen := false;
     cameraCalls :=
       cameraCalls st
         ++ (if graphMounted then
               match graphType with
               | Graph2d => [CenterAt (x node) (y node) 1000; Zoom 8 1000]
               | Graph3d =>
                   [CameraPosition (x node) (y node) 300 (x node) (y node) 0 3000]
               end
             else []);
     timers := timers st ++ [(1000, HoverNodeLater node)] |}.

(** Truthiness of an optional number: [undefined] and 0 are falsy. *)
Definition truthyNumber (c : option Q) : bool :=
  match c with
  | Some q => negb (Qeq_bool q 0)
  | None => false
  end.

(** [typeof e !== "string" ? e : undefined] *)
Definition resolvedNode (e : endpoint) : option CustomNode :=
  match e with
  | EId _ => None
  | ENode n => Some n
  end.

(** The camera target of a link: the midpoint of its endpoints, when
    both are resolved and all four coordinates are truthy. *)
Definition linkMidpoint (link : CustomLink) : option (Q * Q) :=
  match resolvedNode (source link), resolvedNode (target link) with
  | Some sourceNode, Some targetNode =>
      if truthyNumber (x sourceNode) && truthyNumber (x targetNode)
         && truthyNumber (y sourceNode) && truthyNumber (y targetNode)
      then
        match x sourceNode, x targetNode, y sourceNode, y targetNode with
        | Some sx, Some tx, Some sy, Some ty =>
            Some (((sx + tx) / 2)%Q, ((sy + ty) / 2)%Q)
        | _, _, _, _ => None
        end
      else None
  | _, _ => None
  end.

Definition handleFocusLinkClick (graphMounted : bool) (graphType : GraphType)
    (link : CustomLink) (st : FocusState) : FocusState :=
  let newHighlightNodes := addResolved (target link) (addResolved (source link) ∅) in
  let newHighlightLinks := Set_add (link_oid link) ∅ in
  {| highlight :=
       {| highlightNodes := newHighlightNodes;
          highlightLinks := newHighlightLinks;
          hoverNode := hoverNode (highlight st) |};
     rightDrawerOpen := false;
     cameraCalls :=
       cameraCalls st
         ++ (if graphMounted then
               match linkMidpoint link with
               | Some (midX, midY) =>
                   match graphType with
                   | Graph2d => [CenterAt (Some midX) (Some midY) 1000; Zoom 8 1000]
                   | Graph3d =>
                       [CameraPosition (Some midX) (Some midY) 300
                                       (Some midX) (Some midY) 0 3000]
                   end
               | None => []
               end
             else []);
     timers := timers st ++ [(1000, HoverLinkLater link)] |}.

(** A timer fires: its callback runs on the highlight of that moment. *)
Definition runLater (later : Later) (st : HighlightState) : HighlightState :=
  match later with
  | HoverNodeLater node => handleNodeHover (Some node) st
  | HoverLinkLater link => handleLinkHover (Some link) st
  end.

(** The oldest pending timer fires. *)
Definition fireTimer (st : FocusState) : FocusState :=
  match timers st with
  | [] => st
  | (_, later) :: rest =>
      {| highlight := runLater later (highlight st);
         rightDrawerOpen := rightDrawerOpen st;
         cameraCalls := cameraCalls st;
         timers := rest |}
  end.

(** ** Fuzzy search results *)

(** An element of the search index, built over [[...data.nodes,
    ...data.links]]. *)
Inductive SearchItem :=
  | NodeItem (node : CustomNode)
  | LinkItem (link : CustomLink).

(** ["neighbors" in item]: a node object carries the property when its
    neighbours were set; a link object never does. *)
Definition hasNeighbors (item : SearchItem) : bool :=
  match item with
  | NodeItem node =>
      match neighbors node with
      | Some _ => true
      | None => false
      end
  | LinkItem _ => false
  end.

(** ["source" in item && "target" in item] *)
Definition hasEndpoints (item : SearchItem) : bool :=
  match item with
  | NodeItem _ => false
  | LinkItem _ => true
  end.

Record SearchState := mkSearch {
  searchTerm : string;
  searchResults : list SearchItem;
  searchDrawerOpen : bool
}.

(** [handleSearch]; [fuse] stands for [fuse.search(term).map(r => r.item)],
    the ranked matches of the index. *)
Definition handleSearch (fuse : string -> list SearchItem) (st : SearchState)
  : SearchState :=
  let results := fuse (searchTerm st) in
  let nodeResults := List.filter hasNeighbors results in
  let linkResults := List.filter hasEndpoints results in
  {| searchTerm := searchTerm st;
     searchResults := nodeResults ++ linkResults;
     searchDrawerOpen := true |}.

(** ** API drawer *)

(** [toggleApiDrawer(open)()]: the flags it leaves and the new value of
    [apiDrawerOpen]. *)
Definition toggleApiDrawer (open : bool) (props : CategoryProps)
  : CategoryProps * bool :=
  (if open then
     {| flags :=
          (if hasCovariates props then setIncludeCovariates true else fun f => f)
            (setIncludeCommunities true (setIncludeTextUnits true (flags props)));
        hasDocuments := hasDocuments props;
        hasTextUnits := hasTextUnits props;
        hasCommunities := hasCommunities props;
        hasCovariates := hasCovariates props |}
   else props,
   open).

Definition localSearchEnabled (props : CategoryProps) : bool :=
  if hasCovariates props then
    includeTextUnits (flags props) && includeCommunities (flags props)
    && includeCovariates (flags props)
  else includeTextUnits (flags props) && includeCommunities (flags props).

(** [globalSearchEnabled={includeCommunities}] *)
Definition globalSearchEnabled (props : CategoryProps) : bool :=
  includeCommunities (flags props).

(** ** A session: datasets, worker events and API searches *)

Inductive SessionEvent :=
  | Offload (ev : OffloadEvent)
  | ApiSearched (outcome : option SearchResult).

Definition sessionStep (v : Viewer) (ev : SessionEvent) : Viewer :=
  match ev with
  | Offload ev => offloadStep v ev
  | ApiSearched outcome =>
      if mounted v then setStore (handleApiSearch outcome (store v)) v else v
  end.

(** [graphData={filteredGraphData}] on the graph component, in both graph
    types: what is drawn is the category filter of the prop [data]. *)
Definition renderedGraphData (next : oid) (v : Viewer) (f : Flags)
  : CustomGraphData :=
  filteredGraphData next (data v) f.

(** ** Layout offload with a serialised projection

    The worker effect of the second unnamed source file: it posts a
    projection of the graph and merges the answered positions by id. *)

(** An element of [serializableData.nodes], and of the [nodes] array the
    worker answers with (of which only [id], [x] and [y] are read). *)
Record LightNode := mkLightNode {
  light_id : string;
  light_uuid : string;
  light_name : string;
  light_type : option string;
  light_x : option Q;
  light_y : option Q
}.

Record LightLink := mkLightLink {
  light_source : string;
  light_target : string;
  light_link_type : string
}.

Definition serializeNode (node : CustomNode) : LightNode :=
  {| light_id := id node; light_uuid := uuid node; light_name := name node;
     light_type := type node; light_x := x node; light_y := y node |}.

Definition serializeLink (link : CustomLink) : LightLink :=
  {| light_source := endpoint_id (source link);
     light_target := endpoint_id (target link);
     light_link_type := link_type link |}.

Definition serializableData (data : CustomGraphData) : list LightNode * list LightLink :=
  (map serializeNode (nodes data), map serializeLink (graph_links data)).

(** [answered.find(n => n.id === node.id)] *)
Definition findAnswer (answered : list LightNode) (node : CustomNode) : option LightNode :=
  List.find (fun n => String.eqb (light_id n) (id node)) answered.

(** [a || b] on optional numbers. *)
Definition orNumber (a b : option Q) : option Q :=
  if truthyNumber a then a else b.

(** [found?.x] *)
Definition answeredX (found : option LightNode) : option Q :=
  match found with
  | Some n => light_x n
  | None => None
  end.

Definition answeredY (found : option LightNode) : option Q :=
  match found with
  | Some n => light_y n
  | None => None
  end.

(** [{ ...node, x: found?.x || node.x, y: found?.y || node.y }]: a new
    object, with the identity [fresh]. *)
Definition mergeNode (fresh : oid) (answered : list LightNode) (node : CustomNode)
  : CustomNode :=
  {| node_oid := fresh;
     id := id node;
     uuid := uuid node;
     name := name node;
     type := type node;
     human_readable_id := human_readable_id node;
     covariate_type := covariate_type node;
     text := text node;
     x := orNumber (answeredX (findAnswer answered node)) (x node);
     y := orNumber (answeredY (findAnswer answered node)) (y node);
     degree := degree node;
     neighbors := neighbors node;
     links := links node |}.

Fixpoint mergeNodes (next : oid) (answered : list LightNode) (ns : list CustomNode)
  : list CustomNode :=
  match ns with
  | [] => []
  | node :: rest => mergeNode next answered node :: mergeNodes (Pos.succ next) answered rest
  end.

(** [updatedData = { ...data, nodes: data.nodes.map(...) }] *)
Definition mergePositions (next : oid) (data : CustomGraphData) (answered : list LightNode)
  : CustomGraphData :=
  {| nodes := mergeNodes next answered (nodes data);
     graph_links := graph_links data |}.

(** ** Orders and views used by the properties *)

(** Every category that [f] includes, [f'] includes too. *)
Definition flagsWithin (f f' : Flags) : bool :=
  implb (includeDocuments f) (includeDocuments f')
  && implb (includeTextUnits f) (includeTextUnits f')
  && implb (includeCommunities f) (includeCommunities f')
  && implb (includeCovariates f) (includeCovariates f').

Definition allFlags : Flags := mkFlags true true true true.
Definition noFlags : Flags := mkFlags false false false false.

(** The input nodes an element of the clustered list stands for. *)
Definition graphNode_members (g : GraphNode) : list CustomNode :=
  match g with
  | Plain n => [n]
  | Clustered c => cluster_nodes c
  end.

(** A link with its endpoints exchanged. *)
Definition reverseLink (link : CustomLink) : CustomLink :=
  {| link_oid := link_oid link; source := target link; target := source link;
     link_type := link_type link;
     link_human_readable_id := link_human_readable_id link |}.

(** A dataset at or under the offload limit, or an event that brings
    none above it. *)
Definition smallEvent (ev : OffloadEvent) : Prop :=
  match ev with
  | NewData d => length (nodes d) <= 1000
  | _ => True
  end.

(** The state a session of small datasets is always in: no worker, the
    flag down, and the store showing the current dataset. *)
Definition idleOn (v : Viewer) : Prop :=
  workers v = [] /\ workerRunning v = false
  /\ graphData (store v) = data v /\ length (nodes (data v)) <= 1000.

(** What holds of the selection after any clicks: a node and a link are
    never selected together, and while a node is selected the drawer is
    open on that node's own neighbours and links. *)
Definition selectionConsistent (st : SelectionState) : Prop :=
  (selectedNode st = None \/ selectedRelationship st = None)
  /\ (forall n, selectedNode st = Some n ->
        linkedNodes st = orEmpty (neighbors n)
        /\ linkedRelationships st = orEmpty (links n)
        /\ bottomDrawerOpen st = true).

(** The nodes with neighbours, and the links, among ranked matches. *)
Definition nodesAmong (items : list SearchItem) : list CustomNode :=
  omap (fun item => match item with
                    | NodeItem n => if hasNeighbors item then Some n else None
                    | LinkItem _ => None
                    end) items.

Definition linksAmong (items : list SearchItem) : list CustomLink :=
  omap (fun item => match item with
                    | NodeItem _ => None
                    | LinkItem l => Some l
                    end) items.

(** ** Sample data *)

(** A node with the given identity, id, position and external reference;
    every other optional field is absent. *)
Definition sampleNode (o : oid) (i : string) (px py : Q)
    (reference marker : option string) : CustomNode :=
  {| node_oid := o; id := i; uuid := "uuid-" ++ i; name := i;
     type := Some "PERSON"; human_readable_id := reference;
     covariate_type := marker; text := None;
     x := Some px; y := Some py; degree := None;
     neighbors := None; links := None |}.

Definition nodeA : CustomNode := sampleNode 1%positive "a" 0 0 (Some "5") None.
Definition nodeB : CustomNode := sampleNode 2%positive "b" 10 (-20) (Some "6") None.
Definition nodeC : CustomNode := sampleNode 3%positive "c" 160 0 (Some "5") (Some "claim").

Definition linkAB : CustomLink :=
  {| link_oid := 10%positive; source := EId "a"; target := EId "b";
     link_type := "RELATED"; link_human_readable_id := Some "5" |}.

Definition sampleGraph : CustomGraphData :=
  {| nodes := [nodeA; nodeB; nodeC]; graph_links := [linkAB] |}.

(** The store while the dataset shows only [nodeB]. *)
Definition sampleStore : MapperState :=
  {| graphData := {| nodes := [nodeB]; graph_links := [] |};
     initialGraphData := sampleGraph;
     apiSearchResults := None |}.

(** [count] nodes with the ids [prefix0], [prefix1], ... *)
Definition numberedNodes (prefix : string) (count : nat) : list CustomNode :=
  map (fun i => sampleNode (Pos.of_succ_nat i) (prefix ++ pretty i) 0 0 None None)
      (seq 0 count).

Definition numberedGraph (prefix : string) (count : nat) : CustomGraphData :=
  {| nodes := numberedNodes prefix count; graph_links := [] |}.

(** Ten pointer hovers within 50 ms, at 0, 5, ..., 45 ms, alternating
    between [nodeA] and [nodeB]; the last one is over [nodeB]. *)
Definition tenHovers : list HoverEvent :=
  map (fun i => ((5 * i)%nat, Some (if Nat.even i then nodeA else nodeB)))
      (seq 0 10).

Definition noHighlight : HighlightState :=
  {| highlightNodes := ∅; highlightLinks := ∅; hoverNode := None |}.

(** A snapshot of 250 nodes and the snapshot of 30 nodes that replaces
    it. *)
Definition oldSnapshot : CustomGraphData := numberedGraph "old" 250.
Definition newSnapshot : CustomGraphData := numberedGraph "new" 30.

(** Two datasets above the offload limit of 1000 nodes. *)
Definition bigGraph : CustomGraphData := numberedGraph "n" 1001.
Definition biggerGraph : CustomGraphData := numberedGraph "m" 1002.

(** Two nodes with positions away from the origin, resolved as the
    endpoints of a link, and the same link the other way round. *)
Definition nodeP : CustomNode := sampleNode 4%positive "p" 10 20 None None.
Definition nodeQ : CustomNode := sampleNode 5%positive "q" 30 (-40) None None.

Definition linkPQ : CustomLink :=
  {| link_oid := 11%positive; source := ENode nodeP; target := ENode nodeQ;
     link_type := "RELATED"; link_human_readable_id := None |}.

(** A link whose source sits at the origin. *)
Definition linkAP : CustomLink :=
  {| link_oid := 12%positive; source := ENode nodeA; target := ENode nodeP;
     link_type := "RELATED"; link_human_readable_id := None |}.

(** A link to an id that no node of [sampleGraph] carries. *)
Definition linkAZ : CustomLink :=
  {| link_oid := 13%positive; source := EId "a"; target := EId "z";
     link_type := "RELATED"; link_human_readable_id := None |}.

(** [nodeA] with two neighbours and one incident link. *)
Definition hubA : CustomNode :=
  {| node_oid := 1%positive; id := "a"; uuid := "uuid-a"; name := "a";
     type := Some "PERSON"; human_readable_id := Some "5";
     covariate_type := None; text := None;
     x := Some 0%Q; y := Some 0%Q; degree := None;
     neighbors := Some [2%positive; 3%positive]; links := Some [10%positive] |}.

Definition noFocus : FocusState :=
  {| highlight := noHighlight; rightDrawerOpen := true;
     cameraCalls := []; timers := [] |}.

Definition sampleProps : CategoryProps :=
  mkCategoryProps (mkFlags false false false false) true true true true.

(** A toolbar for a dataset with covariates and no text unit, all flags
    cleared. *)
Definition noTextUnitsProps : CategoryProps :=
  mkCategoryProps (mkFlags false false false false) true false true true.


Definition emptyResponse : SearchResult := mkSearchResult "" None.


(** * Properties *)

(** ** Category filter *)

Lemma survives_spec ns e :
  survives ns e = true <-> exists n, n ∈ ns /\ id n = endpoint_id e.
Proof.
  unfold survives. rewrite existsb_exists. split.
  - intros (n & Hin & Heq). exists n. split.
    + by apply list_elem_of_In.
    + by apply String.eqb_eq.
  - intros (n & Hin & Heq). exists n. split.
    + by apply list_elem_of_In.
    + by apply String.eqb_eq.
Qed.

Lemma in_nodeIds (ns : list CustomNode) (e : endpoint) :
  bool_decide (endpoint_id e ∈ (list_to_set (map id ns) : gset string))
  = survives ns e.
Proof.
  apply eq_true_iff_eq. rewrite bool_decide_eq_true, survives_spec.
  rewrite elem_of_list_to_set, list_elem_of_fmap. split.
  - intros (n & Heq & Hin). eauto.
  - intros (n & Hin & Heq). eauto.
Qed.

Lemma keepLink_survives (ns : list CustomNode) (link : CustomLink) :
  keepLink (list_to_set (map id ns)) link
  = survives ns (source link) && survives ns (target link).
Proof. unfold keepLink. by rewrite !in_nodeIds. Qed.

Lemma optimizedNodes_ids next ns :
  map id (optimizedNodes next ns) = map id ns.
Proof.
  revert next. induction ns as [|n ns IH]; intros next; simpl; [done|].
  by rewrite IH.
Qed.

(** The node filter reads the category only: a copy is kept exactly when
    the node it was copied from would be. *)
Lemma keepNode_optimizedNode f fresh node :
  keepNode f (optimizedNode fresh node) = keepNode f node.
Proof. reflexivity. Qed.

(** C1.  Whatever the four flags and the dataset, the links of the
    filtered output are exactly the links of the dataset both of whose
    endpoints survive the node filter, in the dataset's order; so every
    link of the output has its source and its target among the output's
    nodes, and every link of the dataset with both endpoints there is in
    the output. *)
Theorem filteredGraphData_links_closed (next : oid) (data : CustomGraphData) (f : Flags) :
  let out := filteredGraphData next data f in
  graph_links out
  = List.filter
      (fun link => survives (nodes out) (source link)
                   && survives (nodes out) (target link))
      (graph_links data)
  /\ (forall link, link ∈ graph_links out ->
        link ∈ graph_links data
        /\ (exists n, n ∈ nodes out /\ id n = endpoint_id (source link))
        /\ (exists n, n ∈ nodes out /\ id n = endpoint_id (target link)))
  /\ (forall link, link ∈ graph_links data ->
        (exists n, n ∈ nodes out /\ id n = endpoint_id (source link)) ->
        (exists n, n ∈ nodes out /\ id n = endpoint_id (target link)) ->
        link ∈ graph_links out).
Proof.
  intros out.
  assert (Hlinks : graph_links out
    = List.filter
        (fun link => survives (nodes out) (source link)
                     && survives (nodes out) (target link))
        (graph_links data)).
  { subst out. unfold filteredGraphData. simpl.
    apply filter_ext. intros link. apply keepLink_survives. }
  split; [exact Hlinks|]. split.
  - intros link Hin. rewrite Hlinks in Hin.
    apply list_elem_of_In, filter_In in Hin. destruct Hin as [Hin Hboth].
    apply andb_true_iff in Hboth. destruct Hboth as [Hs Ht].
    split; [by apply list_elem_of_In|].
    split; by apply survives_spec.
  - intros link Hin Hs Ht. rewrite Hlinks.
    apply list_elem_of_In, filter_In. split; [by apply list_elem_of_In|].
    apply andb_true_iff. split; by apply survives_spec.
Qed.

(** ** Category check boxes *)

(** C3.  The dependency between the two categories is enforced by the
    handlers themselves: unchecking text units while covariates is checked
    unchecks both, checking covariates while text units is unchecked checks
    both, the other two flags keep their values, and after either handler
    covariates is never checked without text units. *)
Theorem category_dependency_at_toggle (f : Flags) (documents communities : bool) :
  onChangeTextUnits (mkFlags documents true communities true)
  = mkFlags documents false communities false
  /\ onChangeCovariates (mkFlags documents false communities false)
     = mkFlags documents true communities true
  /\ implb (includeCovariates (onChangeTextUnits f))
           (includeTextUnits (onChangeTextUnits f)) = true
  /\ implb (includeCovariates (onChangeCovariates f))
           (includeTextUnits (onChangeCovariates f)) = true.
Proof.
  repeat split.
  - by destruct f as [d [] c []].
  - by destruct f as [d [] c []].
Qed.

(** The other transitions of the two handlers. *)
Lemma onChangeTextUnits_cases (d t c v : bool) :
  onChangeTextUnits (mkFlags d t c v)
  = if t then mkFlags d false c false else mkFlags d true c v.
Proof. by destruct t, v. Qed.

Lemma onChangeCovariates_cases (d t c v : bool) :
  onChangeCovariates (mkFlags d t c v)
  = if v then mkFlags d t c false else mkFlags d true c true.
Proof. by destruct t, v. Qed.

(** A check box that is not disabled does toggle: the gate above is the
    only thing that holds a click back. *)
Lemma checkbox_enabled_toggles (c : Category) (props : CategoryProps) :
  has c props = true ->
  flags (clickCheckbox c None props) = onChange c (flags props).
Proof.
  intros Hhas. unfold clickCheckbox, disabled. by rewrite Hhas.
Qed.

(** C10.  Each of the four category check boxes is disabled exactly when
    its category has no node in the dataset or an API search result is
    stored; a click on a disabled check box changes no flag, and a click
    on an enabled one runs its handler.  The flags have two other writers
    that neither the stored result nor the has-flags hold back: opening
    the API drawer sets text units and communities, and covariates when
    the dataset has them; and the handler of the covariates check box,
    when it switches covariates on, leaves text units on as well, whether
    the dataset has text units or not. *)
Theorem category_checkboxes_gate (c : Category) (props : CategoryProps)
    (apiSearchResults : option SearchResult) :
  (disabled c props apiSearchResults = true
     <-> has c props = false \/ exists result, apiSearchResults = Some result)
  /\ (disabled c props apiSearchResults = true ->
        clickCheckbox c apiSearchResults props = props)
  /\ (disabled c props apiSearchResults = false ->
        clickCheckbox c apiSearchResults props
        = {| flags := onChange c (flags props);
             hasDocuments := hasDocuments props;
             hasTextUnits := hasTextUnits props;
             hasCommunities := hasCommunities props;
             hasCovariates := hasCovariates props |})
  /\ includeTextUnits (flags (fst (toggleApiDrawer true props))) = true
  /\ includeCommunities (flags (fst (toggleApiDrawer true props))) = true
  /\ (hasCovariates props = true ->
        includeCovariates (flags (fst (toggleApiDrawer true props))) = true)
  /\ (disabled Covariates props apiSearchResults = false ->
        includeCovariates (flags props) = false ->
        includeTextUnits (flags (clickCheckbox Covariates apiSearchResults props)) = true
        /\ includeCovariates (flags (clickCheckbox Covariates apiSearchResults props))
           = true).
Proof.
  split.
  { unfold disabled, notNull. rewrite orb_true_iff, negb_true_iff.
    destruct apiSearchResults as [result|].
    - split; [intros _; right; by exists result | by right].
    - split; [intros [Hhas | Hnull]; [by left | discriminate]
             | intros [Hhas | [result Hsome]]; [by left | discriminate]]. }
  split.
  { intros Hd. unfold clickCheckbox. by rewrite Hd. }
  split.
  { intros Hd. unfold clickCheckbox. by rewrite Hd. }
  split; [simpl; by destruct (hasCovariates props)|].
  split; [simpl; by destruct (hasCovariates props)|].
  split; [intros Hcov; simpl; by rewrite Hcov|].
  intros Hd Hoff. unfold clickCheckbox. rewrite Hd.
  destruct props as [[d t k v] hd ht hc hv]. simpl in Hoff. subst v.
  by destruct t.
Qed.

(** A successful API search stores its result, so it disables all four
    check boxes. *)
Lemma handleApiSearch_disables (data : SearchResult) (st : MapperState)
    (c : Category) (props : CategoryProps) :
  disabled c props (apiSearchResults (handleApiSearch (Some data) st)) = true.
Proof.
  unfold disabled, handleApiSearch, updateGraphData.
  destruct (context_data data) as [entries|]; simpl.
  - destruct (fold_left _ entries _). simpl. apply orb_true_r.
  - apply orb_true_r.
Qed.

(** ** Low-zoom visibility *)

Lemma Qltb_spec (a b : Q) : Qltb a b = true <-> (a < b)%Q.
Proof.
  unfold Qltb. rewrite negb_true_iff. split.
  - intros H. apply Qnot_le_lt. intros Hle.
    apply Qle_bool_iff in Hle. congruence.
  - intros H. destruct (Qle_bool b a) eqn:E; [|done].
    apply Qle_bool_iff in E. exfalso. by apply (Qlt_not_le a b).
Qed.

Lemma Qltb_false (a b : Q) : Qltb a b = false <-> (b <= a)%Q.
Proof.
  unfold Qltb. rewrite negb_false_iff. apply Qle_bool_iff.
Qed.

Lemma degree_gt2_spec (node : CustomNode) :
  degree_gt2 node = true <-> exists d, degree node = Some d /\ 2 < d.
Proof.
  unfold degree_gt2. destruct (degree node) as [d|].
  - rewrite Nat.ltb_lt. split; [eauto|]. by intros (d' & [= <-] & H).
  - split; [done|]. by intros (d' & [=] & _).
Qed.

(** C8.  Below zoom 0.5 a node is shown exactly when its degree exceeds
    2, and a link is shown exactly when both endpoints are resolved and
    one of them has a degree above 2, so only if some resolved endpoint
    has; from zoom 0.5 on every node and every link is shown. *)
Theorem low_zoom_visibility (k : Q) (node : CustomNode) (link : CustomLink) :
  ((k < 1 # 2)%Q ->
     (nodeVisibility k node = true <-> exists d, degree node = Some d /\ 2 < d)
     /\ (linkVisibility k link = true <->
           exists s t, source link = ENode s /\ target link = ENode t
                       /\ (degree_gt2 s = true \/ degree_gt2 t = true))
     /\ (linkVisibility k link = true ->
           exists n d, (source link = ENode n \/ target link = ENode n)
                       /\ degree n = Some d /\ 2 < d))
  /\ ((1 # 2 <= k)%Q ->
        nodeVisibility k node = true /\ linkVisibility k link = true).
Proof.
  split.
  - intros Hlow. apply Qltb_spec in Hlow.
    assert (Hlink : linkVisibility k link = true <->
      exists s t, source link = ENode s /\ target link = ENode t
                  /\ (degree_gt2 s = true \/ degree_gt2 t = true)).
    { unfold linkVisibility. rewrite Hlow.
      destruct (source link) as [a|s], (target link) as [b|t];
        try (split; [done | by intros (? & ? & ? & ? & _)]).
      rewrite orb_true_iff. split.
      - intros H. by exists s, t.
      - by intros (s' & t' & [= <-] & [= <-] & H). }
    split; [|split; [exact Hlink|]].
    + unfold nodeVisibility. rewrite Hlow. apply degree_gt2_spec.
    + intros Hvis. apply Hlink in Hvis.
      destruct Hvis as (s & t & Hs & Ht & [Hd | Hd]);
        apply degree_gt2_spec in Hd; destruct Hd as (d & Hdeg & Hgt).
      * exists s, d. auto.
      * exists t, d. auto.
  - intros Hhigh. apply Qltb_false in Hhigh.
    unfold nodeVisibility, linkVisibility. by rewrite Hhigh.
Qed.

(** ** Hover handlers *)

Lemma fold_Set_add (l : list oid) (s : gset oid) :
  fold_left (fun acc x => Set_add x acc) l s = s ∪ list_to_set l.
Proof.
  revert s. induction l as [|a l IH]; intros s; simpl.
  - set_solver.
  - rewrite IH. unfold Set_add. set_solver.
Qed.

Lemma addAll_spec (arr : option (list oid)) (s : gset oid) :
  addAll arr s = s ∪ list_to_set (default [] arr).
Proof.
  destruct arr as [l|]; simpl.
  - apply fold_Set_add.
  - set_solver.
Qed.

Lemma addResolved_spec (e : endpoint) (s : gset oid) (o : oid) :
  o ∈ addResolved e s <-> o ∈ s \/ exists n, e = ENode n /\ o = node_oid n.
Proof.
  destruct e as [a|n]; simpl.
  - split; [auto|]. by intros [H | (n & [=] & _)].
  - unfold Set_add. rewrite elem_of_union, elem_of_singleton. split.
    + intros [H | ->]; [auto|]. right. by exists n.
    + intros [H | (n' & [= <-] & ->)]; auto.
Qed.

(** C9.  Each hover handler builds its two sets from nothing, so the new
    highlight owes nothing to the state before the event: after hovering a
    node the node set is that node with its neighbours and the link set is
    its incident links; after hovering a link the link set is that link
    alone and the node set is its resolved endpoints; after hovering
    nothing both sets are empty. *)
Theorem hover_replaces_highlight (st : HighlightState) :
  (forall n : CustomNode,
      highlightNodes (handleNodeHover (Some n) st)
      = {[ node_oid n ]} ∪ list_to_set (default [] (neighbors n))
      /\ highlightLinks (handleNodeHover (Some n) st)
         = list_to_set (default [] (links n)))
  /\ (forall l : CustomLink,
        highlightLinks (handleLinkHover (Some l) st) = {[ link_oid l ]}
        /\ forall o : oid,
             o ∈ highlightNodes (handleLinkHover (Some l) st)
             <-> exists n, (source l = ENode n \/ target l = ENode n)
                           /\ o = node_oid n)
  /\ highlightNodes (handleNodeHover None st) = ∅
  /\ highlightLinks (handleNodeHover None st) = ∅
  /\ highlightNodes (handleLinkHover None st) = ∅
  /\ highlightLinks (handleLinkHover None st) = ∅.
Proof.
  split; [|split; [|done]].
  - intros n. simpl. rewrite !addAll_spec. unfold Set_add. split; set_solver.
  - intros l. simpl. split.
    + unfold Set_add. set_solver.
    + intros o. rewrite !addResolved_spec. split.
      * intros [[H | (n & Hs & ->)] | (n & Ht & ->)].
        -- set_solver.
        -- exists n. auto.
        -- exists n. auto.
      * intros (n & [Hs | Ht] & ->).
        -- left. right. by exists n.
        -- right. by exists n.
Qed.

(** The two handlers give the same highlight from any two states. *)
Lemma hover_forgets_previous (st st' : HighlightState)
    (node : option CustomNode) (link : option CustomLink) :
  highlightNodes (handleNodeHover node st) = highlightNodes (handleNodeHover node st')
  /\ highlightLinks (handleNodeHover node st) = highlightLinks (handleNodeHover node st')
  /\ highlightNodes (handleLinkHover link st) = highlightNodes (handleLinkHover link st')
  /\ highlightLinks (handleLinkHover link st) = highlightLinks (handleLinkHover link st').
Proof. done. Qed.

(** ** External-result mapper *)

Lemma find_none_const {A : Type} (l : list A) :
  List.find (fun _ => false) l = None.
Proof. by induction l. Qed.

Lemma pushFound_app {A : Type} (o : option A) (arr : list A) :
  pushFound o arr = arr ++ option_list o.
Proof. destruct o; simpl; [done|]. by rewrite app_nil_r. Qed.

Lemma find_ext_rule {A : Type} (f g : A -> bool) (l : list A) :
  (forall a, f a = g a) -> List.find f l = List.find g l.
Proof.
  intros Hfg. induction l as [|a l IH]; simpl; [done|].
  by rewrite Hfg, IH.
Qed.

(** One item: the imperative step appends what the contract resolves. *)
Lemma mapItem_resolve (base : CustomGraphData) (key : string)
    (acc : list CustomNode * list CustomLink) (item : Item) :
  mapItem base key acc item
  = (fst acc ++ option_list (resolveNode base key item),
     snd acc ++ option_list (resolveLink base key item)).
Proof.
  destruct acc as [newNodes newLinks].
  unfold mapItem, resolveNode, resolveLink, nodeRule, linkRule. simpl.
  destruct (String.eqb key "relationships") eqn:Erel.
  { apply String.eqb_eq in Erel. subst key. simpl.
    rewrite find_none_const, pushFound_app. simpl. by rewrite app_nil_r. }
  rewrite (find_none_const (graph_links base)). simpl. rewrite app_nil_r.
  destruct (String.eqb key "entities") eqn:Eent.
  { by rewrite pushFound_app. }
  destruct (String.eqb key "reports") eqn:Erep.
  { by rewrite pushFound_app. }
  destruct (String.eqb key "sources") eqn:Esrc.
  { by rewrite pushFound_app. }
  destruct (String.eqb key "covariates") eqn:Ecov; simpl.
  { by rewrite pushFound_app. }
  destruct (String.eqb key "claims") eqn:Ecl.
  { by rewrite pushFound_app. }
  by rewrite find_none_const, app_nil_r.
Qed.

Lemma mapItems_resolve (base : CustomGraphData) (key : string)
    (items : list Item) (acc : list CustomNode * list CustomLink) :
  fold_left (mapItem base key) items acc
  = (fst acc
       ++ omap (fun ki => resolveNode base (fst ki) (snd ki))
               (map (fun item => (key, item)) items),
     snd acc
       ++ omap (fun ki => resolveLink base (fst ki) (snd ki))
               (map (fun item => (key, item)) items)).
Proof.
  revert acc. induction items as [|item items IH]; intros acc; simpl.
  - rewrite !app_nil_r. by destruct acc.
  - rewrite IH, mapItem_resolve. simpl.
    destruct (resolveNode base key item), (resolveLink base key item);
      simpl; by rewrite <- ?app_assoc, ?app_nil_r.
Qed.

Lemma mapEntry_resolve (base : CustomGraphData)
    (acc : list CustomNode * list CustomLink) (entry : string * ContextValue) :
  mapEntry base acc entry
  = (fst acc ++ omap (fun ki => resolveNode base (fst ki) (snd ki)) (entryItems entry),
     snd acc ++ omap (fun ki => resolveLink base (fst ki) (snd ki)) (entryItems entry)).
Proof.
  unfold mapEntry, entryItems. destruct (snd entry) as [items|].
  - apply mapItems_resolve.
  - simpl. rewrite !app_nil_r. by destruct acc.
Qed.

Lemma mapEntries_resolve (base : CustomGraphData) (entries : ContextData)
    (acc : list CustomNode * list CustomLink) :
  fold_left (mapEntry base) entries acc
  = (fst acc ++ matchedNodes base entries, snd acc ++ matchedLinks base entries).
Proof.
  revert acc. induction entries as [|entry entries IH]; intros acc; simpl.
  - unfold matchedNodes, matchedLinks. simpl. rewrite !app_nil_r. by destruct acc.
  - rewrite IH, mapEntry_resolve. simpl.
    unfold matchedNodes, matchedLinks, responseItems. simpl.
    by rewrite !omap_app, !app_assoc.
Qed.

(** What the rules of the contract say of an element they accept. *)
Lemma sameReference_spec (h : option string) (item : Item) :
  sameReference h item = true <-> h = Some (item_id item).
Proof.
  destruct h as [s|]; simpl; [|done].
  rewrite String.eqb_eq. split; [by intros ->|by intros [= ->]].
Qed.












(** A source item whose text is [null] resolves to no node, and one
    without text resolves to the first node without text. *)
Lemma source_text_null_or_missing (base : CustomGraphData) (i : string) :
  resolveNode base "sources" (mkItem i TextNull) = None
  /\ resolveNode base "sources" (mkItem i TextUndefined)
     = List.find (fun node => negb (bool_decide (is_Some (text node)))) (nodes base).
Proof.
  unfold resolveNode. split.
  - rewrite <- (find_none_const (nodes base)). apply find_ext_rule.
    intros node. cbn. unfold sourceRule, sameText. by destruct (text node).
  - apply find_ext_rule. intros node. cbn. unfold sourceRule, sameText.
    by destruct (text node).
Qed.

Lemma find_resolves {A : Type} (rule : A -> bool) (l : list A) :
  match List.find rule l with
  | Some a => a ∈ l /\ rule a = true
  | None => forall a, a ∈ l -> rule a = false
  end.
Proof.
  destruct (List.find rule l) as [a|] eqn:E.
  - apply find_some in E. destruct E as [Hin Hrule].
    split; [by apply list_elem_of_In|done].
  - intros a Hin. apply (find_none _ _ E). by apply list_elem_of_In.
Qed.

(** [if (!contextData) return;] *)
Lemma updateGraphData_without_context (st : MapperState) :
  updateGraphData None st = st.
Proof. reflexivity. Qed.

Lemma updateGraphData_graphData (entries : ContextData) (st : MapperState) :
  graphData (updateGraphData (Some entries) st)
  = {| nodes := matchedNodes (initialGraphData st) entries;
       graph_links := matchedLinks (initialGraphData st) entries |}.
Proof.
  unfold updateGraphData. by rewrite mapEntries_resolve.
Qed.


(** What is drawn does not depend on the store: an API search, which
    writes the store only, leaves the graph component its input. *)
Lemma rendered_unchanged_by_search (next : oid) (v : Viewer)
    (outcome : option SearchResult) (f : Flags) :
  renderedGraphData next (sessionStep v (ApiSearched outcome)) f
  = renderedGraphData next v f.
Proof.
  unfold renderedGraphData. simpl. by destruct (mounted v).
Qed.

(** ** Level-of-detail clusterer *)

Section Grouping.
Variable threshold : Q.

Let key := clusterKey threshold.

Lemma distinctKeys_elem (ks : list cell) (k : cell) :
  k ∈ distinctKeys ks <-> k ∈ ks.
Proof.
  induction ks as [|a ks IH]; simpl; [done|].
  rewrite !elem_of_cons, list_elem_of_filter, IH.
  destruct (decide (k = a)); naive_solver.
Qed.

Lemma distinctKeys_NoDup (ks : list cell) : NoDup (distinctKeys ks).
Proof.
  induction ks as [|a ks IH]; simpl; [constructor|].
  apply NoDup_cons. split.
  - rewrite list_elem_of_filter. naive_solver.
  - by apply NoDup_filter.
Qed.

Lemma distinctKeys_snoc (ks : list cell) (k : cell) :
  distinctKeys (ks ++ [k])
  = if decide (k ∈ ks) then distinctKeys ks else distinctKeys ks ++ [k].
Proof.
  induction ks as [|a ks IH]; simpl.
  - destruct (decide (k ∈ [])) as [H|H]; [by apply elem_of_nil in H|done].
  - rewrite IH. destruct (decide (k ∈ ks)) as [Hin|Hnin].
    + rewrite decide_True; [done|]. apply elem_of_cons. by right.
    + rewrite filter_app, filter_singleton by exact ks.
      destruct (decide (k = a)) as [->|Hne].
      * rewrite decide_False by naive_solver.
        rewrite decide_True by (apply elem_of_cons; by left).
        by rewrite app_nil_r.
      * rewrite decide_True by done.
        rewrite decide_False; [done|].
        rewrite elem_of_cons. naive_solver.
Qed.

Lemma cellMembers_snoc (ns : list CustomNode) (n : CustomNode) (k : cell) :
  cellMembers threshold (ns ++ [n]) k
  = if decide (key n = k) then cellMembers threshold ns k ++ [n]
    else cellMembers threshold ns k.
Proof.
  unfold cellMembers. rewrite filter_app, filter_singleton by exact ns.
  fold key. destruct (decide (key n = k)); [done|]. by rewrite app_nil_r.
Qed.

Lemma cellMembers_fresh (ns : list CustomNode) (k : cell) :
  k ∉ map key ns -> cellMembers threshold ns k = [].
Proof.
  intros Hnin. unfold cellMembers.
  induction ns as [|a ns IH]; [done|].
  simpl in Hnin. rewrite not_elem_of_cons in Hnin. destruct Hnin as [Hne Hnin].
  rewrite filter_cons_False; [by apply IH|]. fold key. congruence.
Qed.

(** Pushing a node into buckets whose keys are pairwise distinct. *)
Lemma pushNode_buckets (k : cell) (n : CustomNode)
    (members : cell -> list CustomNode) (ks : list cell) :
  NoDup ks ->
  pushNode k n (map (fun k' => (k', members k')) ks)
  = map (fun k' => (k', if decide (k = k') then members k' ++ [n] else members k')) ks
      ++ (if decide (k ∈ ks) then [] else [(k, [n])]).
Proof.
  induction ks as [|a ks IH]; intros Hnd; simpl.
  - destruct (decide (k ∈ [])) as [H|H]; [by apply elem_of_nil in H|done].
  - apply NoDup_cons in Hnd. destruct Hnd as [Ha Hnd].
    destruct (decide (a = k)) as [->|Hne].
    + rewrite (decide_True (P := k = k)) by done.
      rewrite decide_True by (apply elem_of_cons; by left).
      rewrite app_nil_r. f_equal.
      apply map_ext_in. intros k' Hk'. apply list_elem_of_In in Hk'.
      rewrite decide_False; [done|]. by intros ->.
    + rewrite (decide_False (P := k = a)) by done.
      rewrite IH by done. simpl. f_equal. f_equal.
      destruct (decide (k ∈ ks)) as [Hin|Hnin].
      * rewrite decide_True; [done|]. apply elem_of_cons. by right.
      * rewrite decide_False; [done|]. rewrite elem_of_cons. naive_solver.
Qed.

(** The imperative grouping builds the buckets of the contract. *)
Lemma groupCells_cellsOf (ns : list CustomNode) :
  groupCells threshold ns = cellsOf threshold ns.
Proof.
  induction ns as [|n ns IH] using rev_ind; [done|].
  unfold groupCells in *. rewrite fold_left_app. simpl. rewrite IH.
  unfold cellsOf. rewrite pushNode_buckets by apply distinctKeys_NoDup.
  rewrite map_app. simpl. fold key. rewrite distinctKeys_snoc.
  assert (Hmap : forall ks : list cell,
    map (fun k' => (k', if decide (key n = k')
                        then cellMembers threshold ns k' ++ [n]
                        else cellMembers threshold ns k')) ks
    = map (fun k' => (k', cellMembers threshold (ns ++ [n]) k')) ks).
  { intros ks. apply map_ext. intros k'. by rewrite cellMembers_snoc. }
  rewrite Hmap.
  destruct (decide (key n ∈ map key ns)) as [Hin|Hnin].
  - rewrite decide_True by by apply distinctKeys_elem.
    by rewrite app_nil_r.
  - rewrite decide_False by by rewrite distinctKeys_elem.
    rewrite map_app. simpl. f_equal. f_equal. f_equal.
    rewrite cellMembers_snoc, decide_True by done.
    by rewrite cellMembers_fresh.
Qed.

Lemma cellMembers_nonempty (ns : list CustomNode) (k : cell) :
  k ∈ map key ns -> cellMembers threshold ns k <> [].
Proof.
  intros Hin. apply list_elem_of_fmap in Hin. destruct Hin as (n & -> & Hn).
  intros Hnil. eapply (filter_nil_not_elem_of _ ns n); [exact Hnil| |exact Hn].
  done.
Qed.

End Grouping.

Lemma clusterNodes_cellsOf (ns : list CustomNode) (threshold : Q) :
  clusterNodes ns threshold
  = map (fun k => cellNode (cellMembers threshold ns k))
        (distinctKeys (map (clusterKey threshold) ns)).
Proof.
  unfold clusterNodes. rewrite groupCells_cellsOf. unfold cellsOf.
  rewrite map_map. done.
Qed.

(** C7, as the code has it.  Clustering yields one element for every
    cell that holds a node, in the order in which the cells are first met;
    the members of a cell are the input nodes that fall into it, in input
    order, and there is at least one; a cell of one member yields that
    node unchanged; a cell of two or more yields one cluster node whose id
    is "cluster-" followed by the member ids joined by "-" in that same
    input order.  From zoom 0.5 on the node list is left as it is. *)
Theorem clusterNodes_by_cell (ns : list CustomNode) (threshold : Q) :
  let keys := distinctKeys (map (clusterKey threshold) ns) in
  clusterNodes ns threshold
  = map (fun k => cellNode (cellMembers threshold ns k)) keys
  /\ NoDup keys
  /\ (forall k, k ∈ keys <-> exists n, n ∈ ns /\ clusterKey threshold n = k)
  /\ (forall k, k ∈ keys -> cellMembers threshold ns k <> [])
  /\ (forall k n, n ∈ cellMembers threshold ns k <->
                  clusterKey threshold n = k /\ n ∈ ns)
  /\ (forall only, cellNode [only] = Plain only)
  /\ (forall a b rest,
        cellNode (a :: b :: rest) = Clustered (makeCluster (a :: b :: rest))
        /\ graphNode_id (cellNode (a :: b :: rest))
           = ("cluster-" ++ join "-" (map id (a :: b :: rest)))%string)
  /\ (forall data graphZoom,
        (1 # 2 <= graphZoom)%Q ->
        fst (clusteredData data graphZoom) = map Plain (nodes data)).
Proof.
  intros keys. split; [apply clusterNodes_cellsOf|].
  split; [apply distinctKeys_NoDup|].
  split.
  { intros k. subst keys. rewrite distinctKeys_elem, list_elem_of_fmap.
    naive_solver. }
  split.
  { intros k Hk. apply cellMembers_nonempty. by apply distinctKeys_elem. }
  split.
  { intros k n. unfold cellMembers. by rewrite list_elem_of_filter. }
  split; [done|]. split; [done|].
  intros data graphZoom Hz. apply Qltb_false in Hz.
  unfold clusteredData. by rewrite Hz.
Qed.

(** C7, the counterexample.  [nodeA] and [nodeB] share a cell; listed as
    a, b they make the cluster "cluster-a-b", listed as b, a the cluster
    "cluster-b-a": the id follows the enumeration order of the members,
    not their sorted ids. *)
Lemma cluster_id_follows_enumeration_order :
  [nodeA; nodeB] ≡ₚ [nodeB; nodeA]
  /\ map graphNode_id (clusterNodes [nodeA; nodeB] clusterThreshold) = ["cluster-a-b"]
  /\ map graphNode_id (clusterNodes [nodeB; nodeA] clusterThreshold) = ["cluster-b-a"]
  /\ map graphNode_id (clusterNodes [nodeA; nodeB] clusterThreshold)
     <> map graphNode_id (clusterNodes [nodeB; nodeA] clusterThreshold).
Proof.
  split; [apply Permutation_swap|].
  split; [by vm_compute|]. split; [by vm_compute|].
  vm_compute. discriminate.
Qed.



(** C10, on a toolbar with every category present and all flags set:
    once a result is stored the documents check box is disabled and a
    click on it changes nothing. *)
Lemma checkbox_disabled_example :
  disabled Documents (mkCategoryProps allFlags true true true true)
           (Some emptyResponse) = true
  /\ clickCheckbox Documents (Some emptyResponse)
       (mkCategoryProps allFlags true true true true)
     = mkCategoryProps allFlags true true true true.
Proof.
  destruct (category_checkboxes_gate Documents
              (mkCategoryProps allFlags true true true true) (Some emptyResponse))
    as (Hdisabled & Hclick & _).
  assert (Hd : disabled Documents (mkCategoryProps allFlags true true true true)
                 (Some emptyResponse) = true).
  { apply Hdisabled. right. by exists emptyResponse. }
  split; [exact Hd | exact (Hclick Hd)].
Defined.

(** C10, the counterexample.  With a result stored every check box of
    [sampleProps] is disabled and text units is off, yet opening the API
    drawer switches text units on.  And on a toolbar whose dataset has
    covariates and no text unit, the text-units check box is disabled,
    yet a click on the covariates check box, which is enabled, switches
    text units on. *)
Lemma category_flags_written_past_disabled :
  (forall c, disabled c sampleProps (Some emptyResponse) = true)
  /\ includeTextUnits (flags sampleProps) = false
  /\ includeTextUnits (flags (fst (toggleApiDrawer true sampleProps))) = true
  /\ disabled TextUnits noTextUnitsProps None = true
  /\ disabled Covariates noTextUnitsProps None = false
  /\ includeTextUnits (flags noTextUnitsProps) = false
  /\ includeTextUnits (flags (clickCheckbox Covariates None noTextUnitsProps)) = true.
Proof.
  split; [by intros []|]. repeat split.
Qed.

(** ** Hover wiring *)

Lemma pointerHovers_direct_length (events : list HoverEvent) (st : HighlightState) :
  length (pointerHovers (Some handleNodeHover) events st) = length events.
Proof.
  revert st. induction events as [|[t node] events IH]; intros st; simpl; [done|].
  by rewrite IH.
Qed.

(** A burst of calls less than [wait] apart reaches the debounced
    function once, with the arguments of the last call. *)
Lemma debounce_burst {A : Type} (wait : nat) (calls : list (nat * A))
    (t : nat) (a : A) :
  (forall i c c', calls !! i = Some c -> (calls ++ [(t, a)]) !! S i = Some c' ->
                  fst c' < fst c + wait) ->
  debounce wait (calls ++ [(t, a)]) = [(t + wait, a)].
Proof.
  induction calls as [|[t0 a0] calls IH]; intros Hgap; [done|].
  change (debounce wait (((t0, a0) :: calls) ++ [(t, a)]))
    with (match calls ++ [(t, a)] with
          | [] => [((t0 + wait)%nat, a0)]
          | (t', _) :: _ =>
              if (t' <? t0 + wait)%nat then debounce wait (calls ++ [(t, a)])
              else ((t0 + wait)%nat, a0) :: debounce wait (calls ++ [(t, a)])
          end).
  assert (Hrest : debounce wait (calls ++ [(t, a)]) = [(t + wait, a)]).
  { apply IH. intros i c c' Hc Hc'. apply (Hgap (S i) c c'); done. }
  destruct (calls ++ [(t, a)]) as [|[t' a'] rest] eqn:E.
  - by destruct calls.
  - assert (Hlt : t' < t0 + wait).
    { apply (Hgap 0 (t0, a0) (t', a')); [done|]. simpl. by rewrite E. }
    apply Nat.ltb_lt in Hlt. by rewrite Hlt.
Qed.

(** C6, as the code has it.  With highlighting on, the graph component
    receives [handleNodeHover] itself, so every pointer hover recomputes
    the highlight, however close in time the hovers are: the ten hovers
    within 50 ms give ten recomputations, the last of them for the last
    hover. *)
Theorem hover_prop_recomputes_every_event (events : list HoverEvent) (st : HighlightState) :
  onNodeHover true = Some handleNodeHover
  /\ length (pointerHovers (onNodeHover true) events st) = length events
  /\ length (pointerHovers (onNodeHover true) tenHovers st) = 10
  /\ last (pointerHovers (onNodeHover true) tenHovers st)
     = Some (handleNodeHover (Some nodeB) st).
Proof.
  split; [done|]. split; [apply pointerHovers_direct_length|].
  split; [apply pointerHovers_direct_length|]. done.
Qed.

(** The debounced handler, had it been the prop, would have recomputed
    once, for the last hover. *)
Lemma debounced_hover_recomputes_once (st : HighlightState) :
  debouncedHandleNodeHover tenHovers st = [handleNodeHover (Some nodeB) st].
Proof. done. Qed.

(** ** Progressive reveal *)

Lemma addNodes_appends (loop : AddNodes) (st : RevealState) :
  visibleNodes (addNodes loop st)
  = visibleNodes st
      ++ slice (currentIndex loop) (currentIndex loop + chunkSize) (loopNodes loop).
Proof. reflexivity. Qed.

Lemma run_callbacks_appends (callbacks : list AddNodes) (st : RevealState) :
  exists more,
    visibleNodes (fold_left (fun s loop => addNodes loop s) callbacks st)
    = visibleNodes st ++ more.
Proof.
  revert st. induction callbacks as [|loop callbacks IH]; intros st; simpl.
  - exists []. by rewrite app_nil_r.
  - destruct (IH (addNodes loop st)) as [more Hmore].
    rewrite Hmore, addNodes_appends, <- app_assoc. eauto.
Qed.

(** A frame only appends to the visible list. *)
Lemma animationFrame_appends (st : RevealState) :
  exists more, visibleNodes (animationFrame st) = visibleNodes st ++ more.
Proof. unfold animationFrame. apply (run_callbacks_appends _ (mkReveal _ _)). Qed.

Lemma frames_append (k : nat) (st : RevealState) :
  exists more,
    visibleNodes (fold_left revealStep (repeat AnimationFrame k) st)
    = visibleNodes st ++ more.
Proof.
  revert st. induction k as [|k IH]; intros st; simpl.
  - exists []. by rewrite app_nil_r.
  - destruct (IH (animationFrame st)) as [more Hmore].
    destruct (animationFrame_appends st) as [more' Hmore'].
    rewrite Hmore, Hmore', <- app_assoc. eauto.
Qed.

Lemma slice_nonempty {A : Type} (a b : nat) (l : list A) :
  a < b -> a < length l -> slice a b l <> [].
Proof.
  intros Hab Hlen Hnil. apply (f_equal (@length A)) in Hnil.
  unfold slice in Hnil. rewrite length_take, length_drop in Hnil. simpl in Hnil. lia.
Qed.

(** C4, as the code has it.  When a snapshot [new] arrives after the
    first frame of a snapshot [old] of more than 100 nodes, the loop of
    [old] is still scheduled: the next frame puts the nodes 100..199 of
    [old] into the list that was reset for [new], and no later frame
    takes them out again. *)
Theorem stale_reveal_loop_keeps_appending (old new : CustomGraphData) (k : nat) :
  100 < length (nodes old) ->
  slice 100 200 (nodes old) <> []
  /\ exists rest,
       visibleNodes
         (revealRun old ([AnimationFrame; NewSnapshot new; AnimationFrame]
                           ++ repeat AnimationFrame k))
       = slice 100 200 (nodes old) ++ rest.
Proof.
  intros Hlen. split; [apply slice_nonempty; lia|].
  unfold revealRun. rewrite fold_left_app.
  match goal with
  | |- context [fold_left revealStep (repeat AnimationFrame k) ?s] =>
      destruct (frames_append k s) as [more Hmore]; rewrite Hmore
  end.
  exists (slice 0 100 (nodes new) ++ more).
  rewrite app_assoc. f_equal.
  simpl. unfold animationFrame, revealEffect. simpl.
  assert (H100 : (chunkSize <? length (nodes old))%nat = true).
  { apply Nat.ltb_lt. unfold chunkSize. lia. }
  rewrite H100. simpl. unfold slice. by rewrite drop_0.
Qed.

(** C4, on the sample snapshots: 250 nodes, 100 of them admitted when
    the snapshot of 30 nodes arrives.  Once no callback is scheduled any
    more, the visible list is the nodes 100..199 of the old snapshot, the
    30 nodes of the new one, and the nodes 200..249 of the old one. *)
Lemma stale_reveal_loop_example :
  slice 100 200 (nodes oldSnapshot) <> []
  /\ exists rest,
       visibleNodes
         (revealRun oldSnapshot ([AnimationFrame; NewSnapshot newSnapshot; AnimationFrame]
                                   ++ repeat AnimationFrame 1))
       = slice 100 200 (nodes oldSnapshot) ++ rest.
Proof.
  apply (stale_reveal_loop_keeps_appending oldSnapshot newSnapshot 1).
  vm_compute. lia.
Defined.

Lemma stale_reveal_loop_settles_mixed :
  let st := revealRun oldSnapshot
              [AnimationFrame; NewSnapshot newSnapshot; AnimationFrame; AnimationFrame] in
  visibleNodes (revealRun oldSnapshot [AnimationFrame]) = slice 0 100 (nodes oldSnapshot)
  /\ frameCallbacks st = []
  /\ visibleNodes st
     = slice 100 200 (nodes oldSnapshot) ++ nodes newSnapshot
         ++ slice 200 250 (nodes oldSnapshot)
  /\ visibleNodes st <> nodes newSnapshot.
Proof.
  split; [by vm_compute|]. split; [by vm_compute|]. split; [by vm_compute|].
  vm_compute. discriminate.
Qed.

(** Left alone, the loop admits the nodes in their order, 100 a frame:
    after [k] frames, one at least, the first [100 * k] nodes are visible
    and the loop is scheduled again only while nodes remain. *)
Lemma reveal_after_frames (data : CustomGraphData) (k : nat) :
  revealRun data (repeat AnimationFrame (S k))
  = {| visibleNodes := take (chunkSize * S k) (nodes data);
       frameCallbacks :=
         if (chunkSize * S k <? length (nodes data))%nat then
           [{| loopNodes := nodes data; currentIndex := chunkSize * S k |}]
         else [] |}.
Proof.
  induction k as [|k IH].
  - unfold revealRun. simpl. unfold animationFrame, revealEffect. simpl.
    unfold addNodes, slice. simpl. by rewrite ?drop_0.
  - unfold revealRun in *.
    replace (repeat AnimationFrame (S (S k)))
      with (repeat AnimationFrame (S k) ++ [AnimationFrame])
      by (symmetry; apply repeat_cons).
    rewrite fold_left_app, IH.
    cbn [fold_left revealStep]. unfold animationFrame.
    cbn [visibleNodes frameCallbacks].
    destruct (chunkSize * S k <? length (nodes data))%nat eqn:Emore.
    + cbn [fold_left]. unfold addNodes, slice.
      cbn [visibleNodes frameCallbacks loopNodes currentIndex app].
      replace (chunkSize * S k + chunkSize - chunkSize * S k) with chunkSize by lia.
      rewrite take_take_drop.
      by replace (chunkSize * S (S k)) with (chunkSize * S k + chunkSize) by lia.
    + apply Nat.ltb_ge in Emore. cbn [fold_left].
      rewrite !take_ge by lia.
      assert (Hdone : (chunkSize * S (S k) <? length (nodes data))%nat = false)
        by (apply Nat.ltb_ge; lia).
      by rewrite Hdone.
Qed.

(** So an admission that no new snapshot interrupts ends with the full
    node list of its snapshot, in the original order. *)
Lemma reveal_uninterrupted (data : CustomGraphData) (k : nat) :
  length (nodes data) <= chunkSize * S k ->
  revealRun data (repeat AnimationFrame (S k))
  = {| visibleNodes := nodes data; frameCallbacks := [] |}.
Proof.
  intros Hlen. rewrite reveal_after_frames, take_ge by done.
  assert (Hdone : (chunkSize * S k <? length (nodes data))%nat = false)
    by (apply Nat.ltb_ge; lia).
  by rewrite Hdone.
Qed.

(** ** Layout offload *)

Lemma workerEffect_gate (v : Viewer) : gateHolds v -> gateHolds (workerEffect v).
Proof.
  intros Hgate. pose proof Hgate as [Hlen Hflag]. unfold workerEffect.
  destruct (workerRunning v) eqn:Erun; simpl; [exact Hgate|].
  destruct (1000 <? length (nodes (data v)))%nat; [|exact Hgate].
  assert (Hnone : workers v = []).
  { destruct (workers v) as [|w ws]; [done|].
    assert (Habs : false = true) by by apply Hflag. discriminate Habs. }
  split; simpl; [|done]. rewrite Hnone. simpl. lia.
Qed.

Lemma mount_gate (d : CustomGraphData) : gateHolds (mount d).
Proof. unfold mount. apply workerEffect_gate. split; simpl; [lia|done]. Qed.

Lemma offloadStep_gate (v : Viewer) (ev : OffloadEvent) :
  gateHolds v -> gateHolds (offloadStep v ev).
Proof.
  intros Hgate. pose proof Hgate as [Hlen Hflag].
  destruct ev as [d|eventData| |]; simpl.
  - destruct (mounted v); [|done].
    apply workerEffect_gate. split; simpl; done.
  - destruct (workers v) as [|w rest] eqn:Ews; [done|].
    assert (Hrest : rest = []).
    { destruct rest; [done|]. simpl in Hlen. lia. }
    subst rest. simpl. destruct (mounted v).
    + destruct (workerRunning v).
      * apply workerEffect_gate. split; simpl; [lia|done].
      * split; simpl; [lia|done].
    + split; simpl; [lia|done].
  - destruct (workers v) as [|w rest] eqn:Ews; simpl.
    + split; simpl; [lia|done].
    + assert (Hrest : rest = []).
      { destruct rest; [done|]. simpl in Hlen. lia. }
      subst rest. split; simpl; [lia|done].
  - done.
Qed.

Lemma offloadRun_gate (d : CustomGraphData) (events : list OffloadEvent) :
  gateHolds (offloadRun d events).
Proof.
  unfold offloadRun. generalize (mount_gate d). generalize (mount d).
  induction events as [|ev events IH]; intros v Hv; simpl; [done|].
  apply IH. by apply offloadStep_gate.
Qed.

(** Once the flag is set and no worker is left to answer, no later
    dataset starts an offload. *)
Lemma stuck_gate_stays (v : Viewer) (ds : list CustomGraphData) :
  workerRunning v = true -> workers v = [] ->
  workerRunning (fold_left offloadStep (map NewData ds) v) = true
  /\ workers (fold_left offloadStep (map NewData ds) v) = [].
Proof.
  revert v. induction ds as [|d ds IH]; intros v Hrun Hws; simpl; [done|].
  apply IH.
  - destruct (mounted v); [|done]. unfold workerEffect. simpl. by rewrite Hrun.
  - destruct (mounted v); [|done]. unfold workerEffect. simpl. by rewrite Hrun.
Qed.

(** C5, as the code has it.  After any sequence of new datasets, worker
    answers, worker errors and an unmount, at most one offload is in
    flight, and the flag is set while one is.  The answer of the worker
    runs [onmessage], which stores the returned data and clears the flag.
    An error of the worker and an unmount run no handler: the store is not
    touched and nothing is merged; nor is it when the answer comes after
    the unmount. *)
Theorem offload_gate (d : CustomGraphData) (events : list OffloadEvent) :
  let v := offloadRun d events in
  length (workers v) <= 1
  /\ (workers v <> [] -> workerRunning v = true)
  /\ (forall eventData,
        workerRunning (onmessage eventData v) = false
        /\ graphData (store (onmessage eventData v)) = eventData)
  /\ store (offloadStep v WorkerError) = store v
  /\ store (offloadStep v Unmount) = store v
  /\ (forall eventData,
        store (offloadStep (offloadStep v Unmount) (WorkerMessage eventData)) = store v).
Proof.
  intros v. destruct (offloadRun_gate d events) as [Hlen Hflag].
  split; [exact Hlen|]. split; [exact Hflag|].
  split; [done|]. split; [done|]. split; [done|].
  intros eventData. simpl. by destruct (workers v).
Qed.

Lemma numberedGraph_size (prefix : string) (count : nat) :
  length (nodes (numberedGraph prefix count)) = count.
Proof. unfold numberedGraph, numberedNodes. simpl. by rewrite length_map, length_seq. Qed.

Lemma workerEffect_starts (v : Viewer) :
  workerRunning v = false -> 1000 < length (nodes (data v)) ->
  workerEffect v = setWorkerRunning true (setWorkers (workers v ++ [data v]) v).
Proof.
  intros Hrun Hbig. apply Nat.ltb_lt in Hbig.
  unfold workerEffect. by rewrite Hrun, Hbig.
Qed.

Lemma mount_large (d : CustomGraphData) :
  1000 < length (nodes d) ->
  mount d
  = {| data := d;
       store := {| graphData := d; initialGraphData := d; apiSearchResults := None |};
       workerRunning := true; workers := [d]; mounted := true |}.
Proof. intros Hbig. unfold mount. by rewrite workerEffect_starts. Qed.

(** A large dataset starts an offload on mount; when its worker fails, no
    worker is left, the flag stays set and a later dataset starts
    nothing. *)
Lemma offload_error_leaves_flag (d d' : CustomGraphData) :
  1000 < length (nodes d) ->
  workers (offloadRun d []) = [d]
  /\ workerRunning (offloadRun d [WorkerError]) = true
  /\ workers (offloadRun d [WorkerError]) = []
  /\ workerRunning (offloadRun d [WorkerError; NewData d']) = true
  /\ workers (offloadRun d [WorkerError; NewData d']) = [].
Proof.
  intros Hbig. unfold offloadRun. rewrite (mount_large d Hbig).
  cbn -[Nat.ltb]. repeat split.
Qed.

(** When the worker answers, the flag is cleared and, the dataset being
    as large as before, the effect starts the next offload at once. *)
Lemma offload_restarts_after_answer (d eventData : CustomGraphData) :
  1000 < length (nodes d) ->
  workerRunning (offloadRun d [WorkerMessage eventData]) = true
  /\ workers (offloadRun d [WorkerMessage eventData]) = [d]
  /\ graphData (store (offloadRun d [WorkerMessage eventData])) = eventData.
Proof.
  intros Hbig. unfold offloadRun. rewrite (mount_large d Hbig).
  cbn -[Nat.ltb workerEffect]. rewrite workerEffect_starts by done.
  repeat split.
Qed.

(** C5, the counterexample.  A dataset of 1001 nodes starts an offload;
    the worker fails.  No worker is left, yet the flag stays set, and the
    next dataset of 1002 nodes starts no offload. *)
Lemma offload_flag_stuck_after_error :
  workers (offloadRun bigGraph []) = [bigGraph]
  /\ workerRunning (offloadRun bigGraph [WorkerError]) = true
  /\ workers (offloadRun bigGraph [WorkerError]) = []
  /\ workerRunning (offloadRun bigGraph [WorkerError; NewData biggerGraph]) = true
  /\ workers (offloadRun bigGraph [WorkerError; NewData biggerGraph]) = [].
Proof.
  assert (Hbig : 1000 < length (nodes bigGraph)).
  { unfold bigGraph. rewrite numberedGraph_size. lia. }
  exact (offload_error_leaves_flag bigGraph biggerGraph Hbig).
Qed.

(** C8, at zoom 1/4: [nodeA] carries no degree and is hidden, and its
    copy in the filtered output, of degree 0, is hidden as well. *)
Lemma low_zoom_visibility_example :
  (nodeVisibility (1 # 4) nodeA = true <-> exists d, degree nodeA = Some d /\ 2 < d)
  /\ nodeVisibility (1 # 4) (optimizedNode 7%positive nodeA) = false.
Proof.
  destruct (low_zoom_visibility (1 # 4) nodeA linkAB) as [Hlow _].
  destruct Hlow as [Hnode _]; [reflexivity|].
  split; [exact Hnode | reflexivity].
Defined.

(** ** Further examples *)

(** The 250 nodes of [oldSnapshot], left alone for three frames. *)
Lemma reveal_uninterrupted_example :
  revealRun oldSnapshot (repeat AnimationFrame 3)
  = {| visibleNodes := nodes oldSnapshot; frameCallbacks := [] |}.
Proof.
  apply (reveal_uninterrupted oldSnapshot 2).
  vm_compute. lia.
Defined.

(** The worker of [bigGraph] answers with [sampleGraph]: the answer is
    stored and the next offload of [bigGraph] is in flight. *)
Lemma offload_restarts_example :
  workerRunning (offloadRun bigGraph [WorkerMessage sampleGraph]) = true
  /\ workers (offloadRun bigGraph [WorkerMessage sampleGraph]) = [bigGraph]
  /\ graphData (store (offloadRun bigGraph [WorkerMessage sampleGraph])) = sampleGraph.
Proof.
  apply (offload_restarts_after_answer bigGraph sampleGraph).
  vm_compute. lia.
Defined.

(** * Further properties of the component *)

(** ** Category filter: flags, order, degrees *)

Lemma filter_sublist_impl {A : Type} (p q : A -> bool) (l : list A) :
  (forall a, p a = true -> q a = true) ->
  List.filter p l `sublist_of` List.filter q l.
Proof.
  intros Hpq. induction l as [|a l IH]; simpl; [constructor|].
  destruct (p a) eqn:Ep.
  - rewrite (Hpq a Ep). by constructor.
  - destruct (q a); [by constructor | done].
Qed.

Lemma filter_sublist_self {A : Type} (p : A -> bool) (l : list A) :
  List.filter p l `sublist_of` l.
Proof.
  induction l as [|a l IH]; simpl; [constructor|].
  destruct (p a); by constructor.
Qed.

Lemma keepNode_monotone (f f' : Flags) (node : CustomNode) :
  flagsWithin f f' = true -> keepNode f node = true -> keepNode f' node = true.
Proof.
  unfold flagsWithin, keepNode. intros Hle.
  repeat (apply andb_true_iff in Hle; destruct Hle as [Hle ?]).
  destruct (type node) as [t|]; [|done].
  repeat match goal with |- context [String.eqb ?a ?b] => destruct (String.eqb a b) end;
    try done;
    intros Hk; rewrite Hk in *; done.
Qed.

Lemma survives_more (ns ns' : list CustomNode) (e : endpoint) :
  (forall n, n ∈ ns -> n ∈ ns') -> survives ns e = true -> survives ns' e = true.
Proof.
  intros Hsub. rewrite !survives_spec. intros (n & Hin & Hid). eauto.
Qed.

(** Including more categories never hides anything: the nodes and the
    links shown under [f] are shown under [f'], in the same order. *)
Theorem filter_monotone_in_flags (next : oid) (data : CustomGraphData) (f f' : Flags) :
  flagsWithin f f' = true ->
  map id (nodes (filteredGraphData next data f))
    `sublist_of` map id (nodes (filteredGraphData next data f'))
  /\ graph_links (filteredGraphData next data f)
       `sublist_of` graph_links (filteredGraphData next data f').
Proof.
  intros Hle.
  assert (Hnodes : List.filter (keepNode f) (optimizedNodes next (nodes data))
                     `sublist_of`
                   List.filter (keepNode f') (optimizedNodes next (nodes data))).
  { apply filter_sublist_impl. intros a. by apply keepNode_monotone. }
  split.
  - unfold filteredGraphData. simpl. by apply fmap_sublist.
  - unfold filteredGraphData. simpl. apply filter_sublist_impl. intros link.
    rewrite !keepLink_survives, !andb_true_iff.
    assert (Hsub : forall n,
      n ∈ List.filter (keepNode f) (optimizedNodes next (nodes data)) ->
      n ∈ List.filter (keepNode f') (optimizedNodes next (nodes data))).
    { intros n Hn. apply list_elem_of_In, filter_In in Hn.
      destruct Hn as [Hn Hkeep]. apply list_elem_of_In, filter_In.
      split; [done|]. by apply (keepNode_monotone f f'). }
    intros [Hs Ht]. split; by eapply survives_more.
Qed.

Lemma filter_monotone_example :
  map id (nodes (filteredGraphData 100%positive sampleGraph noFlags))
    `sublist_of` map id (nodes (filteredGraphData 100%positive sampleGraph allFlags))
  /\ graph_links (filteredGraphData 100%positive sampleGraph noFlags)
       `sublist_of` graph_links (filteredGraphData 100%positive sampleGraph allFlags).
Proof.
  apply (filter_monotone_in_flags 100%positive sampleGraph noFlags allFlags).
  reflexivity.
Defined.

Lemma keepNode_allFlags (node : CustomNode) : keepNode allFlags node = true.
Proof.
  unfold keepNode. destruct (type node) as [t|]; [|done]. simpl.
  repeat match goal with |- context [String.eqb ?a ?b] => destruct (String.eqb a b) end;
    done.
Qed.

Lemma filter_all_true {A : Type} (p : A -> bool) (l : list A) :
  (forall a, p a = true) -> List.filter p l = l.
Proof.
  intros Hp. induction l as [|a l IH]; simpl; [done|]. by rewrite Hp, IH.
Qed.

(** With every category included no node is hidden: the output carries
    the ids of the dataset in order, and the only links left out are
    those with an endpoint id that no node of the dataset carries. *)
Theorem filter_all_flags_keeps_all (next : oid) (data : CustomGraphData) :
  map id (nodes (filteredGraphData next data allFlags)) = map id (nodes data)
  /\ graph_links (filteredGraphData next data allFlags)
     = List.filter
         (fun link => survives (nodes data) (source link)
                      && survives (nodes data) (target link))
         (graph_links data).
Proof.
  unfold filteredGraphData. simpl.
  rewrite (filter_all_true (keepNode allFlags)) by apply keepNode_allFlags.
  split; [apply optimizedNodes_ids|].
  apply filter_ext. intros link. rewrite keepLink_survives.
  assert (Hsame : forall e,
    survives (optimizedNodes next (nodes data)) e = survives (nodes data) e).
  { intros e. apply eq_true_iff_eq. rewrite !survives_spec. split.
    - intros (n & Hin & Hid).
      assert (Hid' : endpoint_id e ∈ map id (optimizedNodes next (nodes data))).
      { apply list_elem_of_fmap. eauto. }
      rewrite optimizedNodes_ids in Hid'. apply list_elem_of_fmap in Hid'.
      destruct Hid' as (m & Hm & Hin'). eauto.
    - intros (n & Hin & Hid).
      assert (Hid' : endpoint_id e ∈ map id (nodes data)).
      { apply list_elem_of_fmap. eauto. }
      rewrite <- (optimizedNodes_ids next) in Hid'. apply list_elem_of_fmap in Hid'.
      destruct Hid' as (m & Hm & Hin'). eauto. }
  by rewrite !Hsame.
Qed.

Lemma optimizedNodes_degree (next : oid) (ns : list CustomNode) (n : CustomNode) :
  n ∈ optimizedNodes next ns -> degree n = Some (length (orEmpty (neighbors n))).
Proof.
  revert next. induction ns as [|a ns IH]; intros next Hin; simpl in Hin.
  - by apply elem_of_nil in Hin.
  - apply elem_of_cons in Hin. destruct Hin as [-> | Hin]; [|by eapply IH].
    simpl. by destruct (neighbors a).
Qed.

(** Every node handed to the graph carries as degree the number of its
    neighbours, so below zoom 0.5 it is drawn exactly when it has more
    than two neighbours. *)
Theorem filtered_nodes_visible_by_neighbours
    (next : oid) (data : CustomGraphData) (f : Flags) (k : Q) (n : CustomNode) :
  n ∈ nodes (filteredGraphData next data f) ->
  (k < 1 # 2)%Q ->
  degree n = Some (length (orEmpty (neighbors n)))
  /\ (nodeVisibility k n = true <-> 2 < length (orEmpty (neighbors n))).
Proof.
  intros Hin Hk. unfold filteredGraphData in Hin. simpl in Hin.
  apply list_elem_of_In, filter_In in Hin. destruct Hin as [Hin _].
  apply list_elem_of_In, optimizedNodes_degree in Hin.
  split; [done|]. apply Qltb_spec in Hk.
  unfold nodeVisibility, degree_gt2. rewrite Hk, Hin. apply Nat.ltb_lt.
Qed.

Lemma filtered_nodes_visible_example :
  degree (optimizedNode 100%positive hubA) = Some (length (orEmpty (neighbors (optimizedNode 100%positive hubA))))
  /\ (nodeVisibility (1 # 4) (optimizedNode 100%positive hubA) = true
      <-> 2 < length (orEmpty (neighbors (optimizedNode 100%positive hubA)))).
Proof.
  apply (filtered_nodes_visible_by_neighbours 100%positive
           {| nodes := [hubA]; graph_links := [] |} allFlags (1 # 4)).
  - simpl. set_solver.
  - reflexivity.
Defined.

(** ** Clustering: what becomes of the input nodes *)

Lemma cellNode_members (cluster : list CustomNode) :
  graphNode_members (cellNode cluster) = cluster.
Proof. by destruct cluster as [|a [|b rest]]. Qed.

Lemma pushNode_members (key : cell) (node : CustomNode) (clusters : Clusters) :
  concat (map snd (pushNode key node clusters))
    ≡ₚ node :: concat (map snd clusters).
Proof.
  induction clusters as [|[k members] rest IH]; simpl; [done|].
  destruct (decide (k = key)); simpl.
  - rewrite <- app_assoc. simpl. symmetry. apply Permutation_middle.
  - rewrite IH. symmetry. apply Permutation_middle.
Qed.

Lemma groupCells_members_from (threshold : Q) (ns : list CustomNode) (acc : Clusters) :
  concat (map snd
            (fold_left (fun clusters node =>
                          pushNode (clusterKey threshold node) node clusters) ns acc))
    ≡ₚ concat (map snd acc) ++ ns.
Proof.
  revert acc. induction ns as [|n ns IH]; intros acc; simpl.
  - by rewrite app_nil_r.
  - rewrite IH. simpl. rewrite pushNode_members. simpl.
    apply Permutation_middle.
Qed.

Lemma nonempty_members_count (gs : list GraphNode) :
  Forall (fun g => graphNode_members g <> []) gs ->
  length gs <= length (concat (map graphNode_members gs)).
Proof.
  induction 1 as [|g gs Hg Hgs IH]; simpl; [lia|].
  rewrite length_app. destruct (graphNode_members g); [done|]. simpl. lia.
Qed.

(** Clustering neither loses nor repeats a node: the members of the
    output elements, taken together, are the input nodes. *)
Theorem clusterNodes_partitions_input (ns : list CustomNode) (threshold : Q) :
  concat (map graphNode_members (clusterNodes ns threshold)) ≡ₚ ns
  /\ length (clusterNodes ns threshold) <= length ns.
Proof.
  assert (Hperm : concat (map graphNode_members (clusterNodes ns threshold)) ≡ₚ ns).
  { assert (Heq : map graphNode_members (clusterNodes ns threshold)
                    = map snd (groupCells threshold ns)).
    { unfold clusterNodes. rewrite map_map. apply map_ext.
      intros entry. apply cellNode_members. }
    rewrite Heq. unfold groupCells. by rewrite groupCells_members_from. }
  split; [exact Hperm|].
  apply Permutation_length in Hperm. rewrite <- Hperm.
  assert (Hne : Forall (fun g => graphNode_members g <> [])
                       (clusterNodes ns threshold)).
  { rewrite clusterNodes_cellsOf. apply Forall_forall. intros g Hg.
    apply list_elem_of_fmap in Hg. destruct Hg as (k & -> & Hk).
    rewrite cellNode_members. apply cellMembers_nonempty.
    by apply distinctKeys_elem. }
  by apply nonempty_members_count.
Qed.

Lemma pushNode_new_cell (key : cell) (node : CustomNode) (clusters : Clusters) :
  key ∉ map fst clusters ->
  pushNode key node clusters = clusters ++ [(key, [node])].
Proof.
  induction clusters as [|[k members] rest IH]; intros Hnew; simpl; [done|].
  simpl in Hnew. rewrite not_elem_of_cons in Hnew. destruct Hnew as [Hne Hnew].
  rewrite decide_False by done. by rewrite IH.
Qed.

Lemma groupCells_distinct_cells (threshold : Q) (ns : list CustomNode) :
  NoDup (map (clusterKey threshold) ns) ->
  groupCells threshold ns = map (fun n => (clusterKey threshold n, [n])) ns.
Proof.
  induction ns as [|n ns IH] using rev_ind; intros Hnd; [done|].
  rewrite map_app in Hnd. apply NoDup_app in Hnd.
  destruct Hnd as (Hns & Hfresh & _).
  unfold groupCells in *. rewrite fold_left_app. simpl. rewrite IH by done.
  rewrite pushNode_new_cell, map_app; [done|].
  rewrite map_map. simpl. intros Hin. apply (Hfresh _ Hin). simpl. set_solver.
Qed.

(** When no two nodes share a cell, clustering changes nothing: every
    node comes back as it is, in input order. *)
Theorem clusterNodes_distinct_cells (ns : list CustomNode) (threshold : Q) :
  NoDup (map (clusterKey threshold) ns) ->
  clusterNodes ns threshold = map Plain ns.
Proof.
  intros Hnd. unfold clusterNodes. rewrite groupCells_distinct_cells by done.
  by rewrite map_map.
Qed.

Lemma clusterNodes_distinct_cells_example :
  clusterNodes [nodeA; nodeC] clusterThreshold = map Plain [nodeA; nodeC].
Proof.
  apply (clusterNodes_distinct_cells [nodeA; nodeC] clusterThreshold).
  apply (bool_decide_unpack _). vm_compute. exact I.
Defined.

Lemma groupCells_one_cell_from (threshold : Q) (key : cell)
    (ns members : list CustomNode) :
  Forall (fun n => clusterKey threshold n = key) ns ->
  fold_left (fun clusters node => pushNode (clusterKey threshold node) node clusters)
            ns [(key, members)]
  = [(key, members ++ ns)].
Proof.
  revert members. induction ns as [|n ns IH]; intros members Hall; simpl.
  - by rewrite app_nil_r.
  - apply Forall_cons in Hall. destruct Hall as [Hn Hall].
    rewrite Hn, decide_True by done. rewrite IH by done.
    by rewrite <- app_assoc.
Qed.

(** When all nodes, two at least, fall into one cell, they collapse
    into a single cluster that lists them all in input order. *)
Theorem clusterNodes_one_cell (a b : CustomNode) (rest : list CustomNode) (threshold : Q) :
  Forall (fun n => clusterKey threshold n = clusterKey threshold a) (b :: rest) ->
  clusterNodes (a :: b :: rest) threshold = [Clustered (makeCluster (a :: b :: rest))].
Proof.
  intros Hall. unfold clusterNodes, groupCells.
  change (fold_left _ (a :: b :: rest) [])
    with (fold_left (fun clusters node =>
                       pushNode (clusterKey threshold node) node clusters)
                    (b :: rest) [(clusterKey threshold a, [a])]).
  by rewrite groupCells_one_cell_from.
Qed.

Lemma clusterNodes_one_cell_example :
  clusterNodes [nodeA; nodeB] clusterThreshold
  = [Clustered (makeCluster [nodeA; nodeB])].
Proof.
  apply (clusterNodes_one_cell nodeA nodeB [] clusterThreshold).
  repeat constructor.
Defined.

(** ** External-result mapper: composition and bounds *)

Lemma matched_app (base : CustomGraphData) (e1 e2 : ContextData) :
  matchedNodes base (e1 ++ e2) = matchedNodes base e1 ++ matchedNodes base e2
  /\ matchedLinks base (e1 ++ e2) = matchedLinks base e1 ++ matchedLinks base e2.
Proof.
  unfold matchedNodes, matchedLinks, responseItems.
  by rewrite flat_map_app, !omap_app.
Qed.

(** The mapper works key by key, and neither merges nor removes
    duplicates: the snapshot for a response is the snapshot for its first
    keys followed by the snapshot for the remaining ones. *)
Theorem updateGraphData_concatenates (e1 e2 : ContextData) (st : MapperState) :
  nodes (graphData (updateGraphData (Some (e1 ++ e2)) st))
  = nodes (graphData (updateGraphData (Some e1) st))
      ++ nodes (graphData (updateGraphData (Some e2) st))
  /\ graph_links (graphData (updateGraphData (Some (e1 ++ e2)) st))
     = graph_links (graphData (updateGraphData (Some e1) st))
         ++ graph_links (graphData (updateGraphData (Some e2) st)).
Proof.
  rewrite !updateGraphData_graphData. simpl.
  destruct (matched_app (initialGraphData st) e1 e2) as [Hn Hl].
  by rewrite Hn, Hl.
Qed.

(** A later search does not see an earlier one: mapping a second
    response after a first gives what mapping the second alone gives. *)
Theorem updateGraphData_twice (e1 e2 : ContextData) (st : MapperState) :
  graphData (updateGraphData (Some e2) (updateGraphData (Some e1) st))
  = graphData (updateGraphData (Some e2) st).
Proof.
  rewrite !updateGraphData_graphData.
  assert (Hbase : initialGraphData (updateGraphData (Some e1) st) = initialGraphData st).
  { unfold updateGraphData. by destruct (fold_left _ e1 _). }
  by rewrite Hbase.
Qed.

Lemma omap_within {A B : Type} (f : A -> option B) (l : list A) (P : B -> Prop) :
  (forall a b, f a = Some b -> P b) -> Forall P (omap f l).
Proof.
  intros Hf. induction l as [|a l IH]; simpl; [constructor|].
  destruct (f a) as [b|] eqn:E; [|done]. constructor; eauto.
Qed.

(** The mapper shows nothing that the initial snapshot does not hold,
    and no more elements than the response has items. *)
Theorem updateGraphData_within_base (entries : ContextData) (st : MapperState) :
  Forall (fun n => n ∈ nodes (initialGraphData st))
         (nodes (graphData (updateGraphData (Some entries) st)))
  /\ Forall (fun l => l ∈ graph_links (initialGraphData st))
            (graph_links (graphData (updateGraphData (Some entries) st)))
  /\ length (nodes (graphData (updateGraphData (Some entries) st)))
       + length (graph_links (graphData (updateGraphData (Some entries) st)))
     <= length (responseItems entries).
Proof.
  rewrite updateGraphData_graphData. simpl. split; [|split].
  - apply omap_within. intros [key item] n Hres. unfold resolveNode in Hres.
    apply find_some in Hres. apply list_elem_of_In. tauto.
  - apply omap_within. intros [key item] l Hres. unfold resolveLink in Hres.
    apply find_some in Hres. apply list_elem_of_In. tauto.
  - unfold matchedNodes, matchedLinks.
    induction (responseItems entries) as [|[key item] items IH]; simpl; [lia|].
    assert (Hone : resolveNode (initialGraphData st) key item = None
                   \/ resolveLink (initialGraphData st) key item = None).
    { unfold resolveNode, resolveLink, nodeRule, linkRule.
      destruct (String.eqb key "relationships") eqn:E.
      - left. apply String.eqb_eq in E. subst key. simpl. apply find_none_const.
      - right. apply find_none_const. }
    destruct Hone as [-> | ->].
    + destruct (resolveLink _ key item); simpl; unfold omap in IH; lia.
    + destruct (resolveNode _ key item); simpl; unfold omap in IH; lia.
Qed.

(** A property under a key the mapper does not know, and a property
    that is not an array, contribute nothing. *)
Theorem updateGraphData_ignores_unknown (key : string) (value : ContextValue)
    (st : MapperState) :
  (key <> "relationships" /\ key <> "entities" /\ key <> "reports"
     /\ key <> "sources" /\ key <> "covariates" /\ key <> "claims")
  \/ value = VOther ->
  graphData (updateGraphData (Some [(key, value)]) st)
  = {| nodes := []; graph_links := [] |}.
Proof.
  intros Hcase. rewrite updateGraphData_graphData.
  unfold matchedNodes, matchedLinks, responseItems. simpl. rewrite app_nil_r.
  destruct Hcase as [(H1 & H2 & H3 & H4 & H5 & H6) | ->]; [|done].
  unfold entryItems. simpl. destruct value as [items|]; [|done].
  apply String.eqb_neq in H1, H2, H3, H4, H5, H6.
  assert (Hn : forall item, resolveNode (initialGraphData st) key item = None).
  { intros item. unfold resolveNode, nodeRule.
    rewrite H2, H3, H4, H5, H6. apply find_none_const. }
  assert (Hl : forall item, resolveLink (initialGraphData st) key item = None).
  { intros item. unfold resolveLink, linkRule. rewrite H1. apply find_none_const. }
  f_equal; induction items as [|item items IH]; simpl; try done.
  - by rewrite Hn.
  - by rewrite Hl.
Qed.

Lemma updateGraphData_ignores_unknown_example :
  graphData (updateGraphData (Some [("text_units", VArray [mkItem "5" TextUndefined])]) sampleStore)
  = {| nodes := []; graph_links := [] |}.
Proof.
  apply (updateGraphData_ignores_unknown "text_units" (VArray [mkItem "5" TextUndefined])
           sampleStore).
  left. repeat split; discriminate.
Defined.

(** An entity and a claim never resolve to the same node, even under the
    same external id: the covariate marker tells them apart. *)
Theorem entity_and_claim_resolve_apart (base : CustomGraphData) (item : Item)
    (entity claim : CustomNode) :
  resolveNode base "entities" item = Some entity ->
  resolveNode base "claims" item = Some claim ->
  truthy (covariate_type entity) = false
  /\ truthy (covariate_type claim) = true
  /\ human_readable_id entity = human_readable_id claim
  /\ entity <> claim.
Proof.
  unfold resolveNode. intros He Hc.
  apply find_some in He, Hc. destruct He as [_ He], Hc as [_ Hc].
  change (nodeRule "entities" item entity) with (entityRule item entity) in He.
  change (nodeRule "claims" item claim) with (covariateRule item claim) in Hc.
  unfold entityRule in He. unfold covariateRule in Hc.
  apply andb_true_iff in He, Hc. destruct He as [He1 He2], Hc as [Hc1 Hc2].
  apply sameReference_spec in He1, Hc1. apply negb_true_iff in He2.
  split; [done|]. split; [done|]. split; [congruence|].
  intros ->. congruence.
Qed.

Lemma entity_and_claim_example :
  truthy (covariate_type nodeA) = false
  /\ truthy (covariate_type nodeC) = true
  /\ human_readable_id nodeA = human_readable_id nodeC
  /\ nodeA <> nodeC.
Proof.
  apply (entity_and_claim_resolve_apart sampleGraph (mkItem "5" TextUndefined) nodeA nodeC);
    reflexivity.
Defined.

(** ** A session: what the stored search result and the gate never do *)

Lemma workerEffect_store (v : Viewer) : store (workerEffect v) = store v.
Proof.
  unfold workerEffect.
  by destruct (negb (workerRunning v) && (1000 <? length (nodes (data v)))%nat).
Qed.

Lemma handleApiSearch_keeps_result (outcome : option SearchResult) (st : MapperState) :
  notNull (apiSearchResults st) = true ->
  notNull (apiSearchResults (handleApiSearch outcome st)) = true.
Proof.
  intros Hset. destruct outcome as [data|]; [|done].
  unfold handleApiSearch, updateGraphData.
  destruct (context_data data) as [entries|]; simpl; [|done].
  by destruct (fold_left _ entries _).
Qed.

Lemma sessionStep_keeps_result (v : Viewer) (ev : SessionEvent) :
  notNull (apiSearchResults (store v)) = true ->
  notNull (apiSearchResults (store (sessionStep v ev))) = true.
Proof.
  intros Hset. destruct ev as [[d|eventData| |]|outcome]; simpl.
  - destruct (mounted v); [|done]. by rewrite workerEffect_store.
  - destruct (workers v) as [|w rest]; [done|]. simpl.
    destruct (mounted v); [|done].
    destruct (workerRunning v); [by rewrite workerEffect_store | done].
  - done.
  - done.
  - destruct (mounted v); [|done]. simpl. by apply handleApiSearch_keeps_result.
Qed.

(** Nothing ever resets the stored search result: once a search has
    succeeded, no later dataset, worker event or search clears it, so the
    four check boxes stay disabled for the rest of the session, even
    after a new dataset has replaced the mapped snapshot. *)
Theorem search_result_never_cleared (v : Viewer) (events : list SessionEvent) :
  notNull (apiSearchResults (store v)) = true ->
  notNull (apiSearchResults (store (fold_left sessionStep events v))) = true
  /\ (forall c props,
        disabled c props (apiSearchResults (store (fold_left sessionStep events v)))
        = true)
  /\ (forall d, mounted v = true ->
        graphData (store (sessionStep v (Offload (NewData d)))) = d
        /\ notNull (apiSearchResults (store (sessionStep v (Offload (NewData d)))))
           = true).
Proof.
  intros Hset.
  assert (Hkept : notNull (apiSearchResults (store (fold_left sessionStep events v)))
                  = true).
  { revert v Hset. induction events as [|ev events IH]; intros v Hset; simpl; [done|].
    apply IH. by apply sessionStep_keeps_result. }
  split; [exact Hkept|]. split.
  - intros c props. unfold disabled. rewrite Hkept. apply orb_true_r.
  - intros d Hm. split.
    + simpl. rewrite Hm. by rewrite workerEffect_store.
    + by apply sessionStep_keeps_result.
Qed.

Lemma search_result_never_cleared_example :
  let v := sessionStep (mount sampleGraph) (ApiSearched (Some (mkSearchResult "" None))) in
  notNull (apiSearchResults
             (store (fold_left sessionStep [Offload (NewData sampleGraph)] v))) = true
  /\ (forall c props,
        disabled c props
          (apiSearchResults
             (store (fold_left sessionStep [Offload (NewData sampleGraph)] v))) = true)
  /\ (forall d, mounted v = true ->
        graphData (store (sessionStep v (Offload (NewData d)))) = d
        /\ notNull (apiSearchResults (store (sessionStep v (Offload (NewData d)))))
           = true).
Proof.
  apply (search_result_never_cleared
           (sessionStep (mount sampleGraph) (ApiSearched (Some (mkSearchResult "" None))))
           [Offload (NewData sampleGraph)]).
  reflexivity.
Defined.

Lemma offloadStep_stays_stuck (v : Viewer) (ev : OffloadEvent) :
  workerRunning v = true -> workers v = [] ->
  workerRunning (offloadStep v ev) = true /\ workers (offloadStep v ev) = [].
Proof.
  intros Hrun Hws. destruct ev as [d|eventData| |]; simpl.
  - destruct (mounted v); [|done]. unfold workerEffect. simpl. by rewrite Hrun.
  - by rewrite Hws.
  - by rewrite Hws.
  - done.
Qed.

(** A gate that is shut with no worker behind it never opens again:
    whatever datasets and worker events follow, the flag stays set and no
    offload is started. *)
Theorem offload_gate_never_reopens (v : Viewer) (events : list OffloadEvent) :
  workerRunning v = true -> workers v = [] ->
  workerRunning (fold_left offloadStep events v) = true
  /\ workers (fold_left offloadStep events v) = [].
Proof.
  revert v. induction events as [|ev events IH]; intros v Hrun Hws; simpl; [done|].
  destruct (offloadStep_stays_stuck v ev Hrun Hws) as [Hrun' Hws']. by apply IH.
Qed.

Lemma offload_gate_never_reopens_example :
  workerRunning
    (fold_left offloadStep
       [NewData biggerGraph; WorkerMessage sampleGraph; NewData bigGraph]
       (offloadRun bigGraph [WorkerError])) = true
  /\ workers
       (fold_left offloadStep
          [NewData biggerGraph; WorkerMessage sampleGraph; NewData bigGraph]
          (offloadRun bigGraph [WorkerError])) = [].
Proof.
  assert (Hbig : 1000 < length (nodes bigGraph)) by (vm_compute; lia).
  apply (offload_gate_never_reopens (offloadRun bigGraph [WorkerError])
           [NewData biggerGraph; WorkerMessage sampleGraph; NewData bigGraph]).
  - exact (proj1 (proj2 (offload_error_leaves_flag bigGraph biggerGraph Hbig))).
  - exact (proj1 (proj2 (proj2 (offload_error_leaves_flag bigGraph biggerGraph Hbig)))).
Defined.

Lemma workerEffect_small (v : Viewer) :
  length (nodes (data v)) <= 1000 -> workerEffect v = v.
Proof.
  intros Hsmall. unfold workerEffect.
  assert (Hno : (1000 <? length (nodes (data v)))%nat = false)
    by (apply Nat.ltb_ge; lia).
  rewrite Hno. by rewrite andb_false_r.
Qed.

Lemma offloadStep_idle (v : Viewer) (ev : OffloadEvent) :
  idleOn v -> smallEvent ev -> idleOn (offloadStep v ev).
Proof.
  intros (Hws & Hrun & Hshown & Hsmall) Hev.
  destruct ev as [d|eventData| |]; simpl in *.
  - destruct (mounted v); [|done].
    rewrite workerEffect_small by done. done.
  - by rewrite Hws.
  - by rewrite Hws.
  - done.
Qed.

(** Datasets of at most 1000 nodes never reach a worker: through any
    sequence of such datasets nothing is in flight, the flag is down and
    the store holds the dataset as it was submitted. *)
Theorem small_datasets_never_offload (d : CustomGraphData) (events : list OffloadEvent) :
  length (nodes d) <= 1000 ->
  Forall smallEvent events ->
  workers (offloadRun d events) = []
  /\ workerRunning (offloadRun d events) = false
  /\ graphData (store (offloadRun d events)) = data (offloadRun d events).
Proof.
  intros Hsmall Hevents.
  assert (Hidle : idleOn (offloadRun d events)).
  { unfold offloadRun.
    assert (Hmount : idleOn (mount d)).
    { unfold mount. rewrite workerEffect_small by done. done. }
    revert Hmount. generalize (mount d).
    induction Hevents as [|ev events Hev Hevents IH]; intros v Hv; simpl; [done|].
    apply IH. by apply offloadStep_idle. }
  destruct Hidle as (? & ? & ? & _). done.
Qed.

Lemma small_datasets_never_offload_example :
  workers (offloadRun sampleGraph [NewData newSnapshot; WorkerError]) = []
  /\ workerRunning (offloadRun sampleGraph [NewData newSnapshot; WorkerError]) = false
  /\ graphData (store (offloadRun sampleGraph [NewData newSnapshot; WorkerError]))
     = data (offloadRun sampleGraph [NewData newSnapshot; WorkerError]).
Proof.
  apply (small_datasets_never_offload sampleGraph [NewData newSnapshot; WorkerError]).
  - vm_compute. lia.
  - constructor; [vm_compute; lia | constructor; [exact I | constructor]].
Defined.

(** ** Merging the answered positions *)

Lemma mergeNodes_lookup (next : oid) (answered : list LightNode)
    (ns : list CustomNode) (i : nat) (node : CustomNode) :
  ns !! i = Some node ->
  exists fresh, mergeNodes next answered ns !! i = Some (mergeNode fresh answered node).
Proof.
  revert next i. induction ns as [|a ns IH]; intros next i Hi; [done|].
  destruct i as [|i]; simpl in *.
  - injection Hi as ->. eauto.
  - by apply IH.
Qed.

Lemma mergeNodes_length (next : oid) (answered : list LightNode) (ns : list CustomNode) :
  length (mergeNodes next answered ns) = length ns.
Proof.
  revert next. induction ns as [|a ns IH]; intros next; simpl; [done|]. by rewrite IH.
Qed.

Lemma findAnswer_absent (answered : list LightNode) (node : CustomNode) :
  (forall a, a ∈ answered -> light_id a <> id node) ->
  findAnswer answered node = None.
Proof.
  intros Habs. unfold findAnswer.
  destruct (List.find _ answered) as [a|] eqn:E; [|done].
  apply find_some in E. destruct E as [Hin Heq].
  apply String.eqb_eq in Heq. apply list_elem_of_In in Hin.
  by destruct (Habs a Hin).
Qed.

(** The merge moves nodes and does nothing else: links, the number and
    order of the nodes and every field but the position are kept; a node
    whose id the answer does not hold keeps its position; and an answered
    coordinate that is missing or 0 leaves the old coordinate in place. *)
Theorem mergePositions_only_moves (next : oid) (data : CustomGraphData)
    (answered : list LightNode) :
  let out := mergePositions next data answered in
  graph_links out = graph_links data
  /\ length (nodes out) = length (nodes data)
  /\ (forall i node, nodes data !! i = Some node ->
        exists m, nodes out !! i = Some m
          /\ (id m, uuid m, name m, type m) = (id node, uuid node, name node, type node)
          /\ (human_readable_id m, covariate_type m, text m)
             = (human_readable_id node, covariate_type node, text node)
          /\ (degree m, neighbors m, links m) = (degree node, neighbors node, links node)
          /\ ((forall a, a ∈ answered -> light_id a <> id node) ->
                x m = x node /\ y m = y node)
          /\ (forall a, findAnswer answered node = Some a ->
                (truthyNumber (light_x a) = false -> x m = x node)
                /\ (truthyNumber (light_x a) = true -> x m = light_x a)
                /\ (truthyNumber (light_y a) = false -> y m = y node)
                /\ (truthyNumber (light_y a) = true -> y m = light_y a))).
Proof.
  intros out. split; [done|]. split; [apply mergeNodes_length|].
  intros i node Hi.
  destruct (mergeNodes_lookup next answered (nodes data) i node Hi) as [fresh Hm].
  exists (mergeNode fresh answered node). split; [exact Hm|].
  split; [done|]. split; [done|]. split; [done|]. split.
  - intros Habs. simpl. by rewrite (findAnswer_absent answered node Habs).
  - intros a Ha. simpl. rewrite Ha. simpl. unfold orNumber.
    repeat split; by intros ->.
Qed.

Lemma find_serialized (ns : list CustomNode) (wanted : string) :
  List.find (fun n => String.eqb (light_id n) wanted) (map serializeNode ns)
  = option_map serializeNode (List.find (fun n => String.eqb (id n) wanted) ns).
Proof.
  induction ns as [|a ns IH]; simpl; [done|].
  by destruct (String.eqb (id a) wanted).
Qed.

Lemma unique_id_same_node (ns : list CustomNode) (a b : CustomNode) :
  NoDup (map id ns) -> a ∈ ns -> b ∈ ns -> id a = id b -> a = b.
Proof.
  induction ns as [|n ns IH]; intros Hnd Ha Hb Hid.
  - by apply elem_of_nil in Ha.
  - simpl in Hnd. apply NoDup_cons in Hnd. destruct Hnd as [Hfresh Hnd].
    apply elem_of_cons in Ha, Hb.
    destruct Ha as [-> | Ha], Hb as [-> | Hb]; [done| | |by apply IH].
    + exfalso. apply Hfresh. rewrite Hid. by apply list_elem_of_fmap_2.
    + exfalso. apply Hfresh. rewrite <- Hid. by apply list_elem_of_fmap_2.
Qed.

Lemma orNumber_same (c : option Q) : orNumber c c = c.
Proof. unfold orNumber. by destruct (truthyNumber c). Qed.

Lemma mergeNodes_own_projection (next : oid) (ns part : list CustomNode) :
  NoDup (map id ns) ->
  (forall n, n ∈ part -> n ∈ ns) ->
  map x (mergeNodes next (map serializeNode ns) part) = map x part
  /\ map y (mergeNodes next (map serializeNode ns) part) = map y part.
Proof.
  intros Hnd. revert next. induction part as [|n part IH]; intros next Hsub; [done|].
  assert (Hn : n ∈ ns) by (apply Hsub; apply elem_of_cons; by left).
  assert (Hfound : findAnswer (map serializeNode ns) n = Some (serializeNode n)).
  { unfold findAnswer. rewrite find_serialized.
    destruct (List.find _ ns) as [m|] eqn:E.
    - apply find_some in E. destruct E as [Hm Heq].
      apply String.eqb_eq in Heq. apply list_elem_of_In in Hm.
      simpl. by rewrite (unique_id_same_node ns m n Hnd Hm Hn Heq).
    - exfalso. apply list_elem_of_In in Hn.
      pose proof (find_none _ _ E n Hn) as Hno. simpl in Hno.
      by rewrite String.eqb_refl in Hno. }
  destruct (IH (Pos.succ next)) as [IHx IHy].
  { intros m Hm. apply Hsub. apply elem_of_cons. by right. }
  simpl. rewrite Hfound, IHx, IHy. simpl. by rewrite !orNumber_same.
Qed.

(** A round trip: when the ids are unique and the worker answers with
    the positions it was sent, the merge leaves every node where it
    was. *)
Theorem merge_of_posted_projection (next : oid) (data : CustomGraphData) :
  NoDup (map id (nodes data)) ->
  map x (nodes (mergePositions next data (fst (serializableData data))))
  = map x (nodes data)
  /\ map y (nodes (mergePositions next data (fst (serializableData data))))
     = map y (nodes data).
Proof.
  intros Hnd. unfold mergePositions, serializableData. simpl.
  by apply mergeNodes_own_projection.
Qed.

Lemma merge_of_posted_projection_example :
  map x (nodes (mergePositions 100%positive sampleGraph (fst (serializableData sampleGraph))))
  = map x (nodes sampleGraph)
  /\ map y (nodes (mergePositions 100%positive sampleGraph (fst (serializableData sampleGraph))))
     = map y (nodes sampleGraph).
Proof.
  apply (merge_of_posted_projection 100%positive sampleGraph).
  apply (bool_decide_unpack _). vm_compute. exact I.
Defined.

(** ** Click selection *)

Lemma clickStep_consistent (data : CustomGraphData) (st : SelectionState)
    (ev : ClickEvent) :
  selectionConsistent (clickStep data st ev).
Proof.
  destruct ev as [node|link]; simpl.
  - split; simpl; [by right|]. by intros n [= <-].
  - unfold handleLinkClick.
    destruct (findById data _) as [s|]; [destruct (findById data _) as [t|]|];
      (split; simpl; [by left | by intros n [=]]).
Qed.

Theorem selection_stays_consistent (data : CustomGraphData) (events : list ClickEvent) :
  let st := fold_left (clickStep data) events noSelection in
  (selectedNode st = None \/ selectedRelationship st = None)
  /\ (forall n, selectedNode st = Some n ->
        linkedNodes st = orEmpty (neighbors n)
        /\ linkedRelationships st = orEmpty (links n)
        /\ bottomDrawerOpen st = true).
Proof.
  intros st. change (selectionConsistent st). subst st.
  induction events as [|ev events IH] using rev_ind.
  - split; simpl; [by left | by intros n [=]].
  - rewrite fold_left_app. simpl. apply clickStep_consistent.
Qed.

Lemma findById_spec (data : CustomGraphData) (wanted : string) :
  match findById data wanted with
  | Some n => n ∈ nodes data /\ id n = wanted
  | None => forall n, n ∈ nodes data -> id n <> wanted
  end.
Proof.
  unfold findById. destruct (List.find _ (nodes data)) as [n|] eqn:E.
  - apply find_some in E. destruct E as [Hin Heq].
    split; [by apply list_elem_of_In | by apply String.eqb_eq].
  - intros n Hin. apply list_elem_of_In in Hin.
    pose proof (find_none _ _ E n Hin) as Hno. by apply String.eqb_neq.
Qed.

(** A click on a link always selects it and deselects the node.  When
    the dataset holds nodes with both endpoint ids, the linked context
    becomes those two nodes and the link, and the drawer opens; when an
    endpoint id is carried by no node, the linked context and the drawer
    stay as the previous selection left them. *)
Theorem handleLinkClick_resolves (data : CustomGraphData) (link : CustomLink)
    (st : SelectionState) :
  let st' := handleLinkClick data link st in
  selectedNode st' = None
  /\ selectedRelationship st' = Some link
  /\ ((exists s t, s ∈ nodes data /\ t ∈ nodes data
                   /\ id s = endpoint_id (source link)
                   /\ id t = endpoint_id (target link)) ->
        exists s t, s ∈ nodes data /\ t ∈ nodes data
                    /\ id s = endpoint_id (source link)
                    /\ id t = endpoint_id (target link)
                    /\ linkedNodes st' = [node_oid s; node_oid t]
                    /\ linkedRelationships st' = [link_oid link]
                    /\ bottomDrawerOpen st' = true)
  /\ ((forall n, n ∈ nodes data -> id n <> endpoint_id (source link))
      \/ (forall n, n ∈ nodes data -> id n <> endpoint_id (target link)) ->
        linkedNodes st' = linkedNodes st
        /\ linkedRelationships st' = linkedRelationships st
        /\ bottomDrawerOpen st' = bottomDrawerOpen st).
Proof.
  intros st'. subst st'. unfold handleLinkClick.
  pose proof (findById_spec data (endpoint_id (source link))) as Hs.
  pose proof (findById_spec data (endpoint_id (target link))) as Ht.
  destruct (findById data (endpoint_id (source link))) as [s|];
    destruct (findById data (endpoint_id (target link))) as [t|]; simpl;
    (split; [done|]); (split; [done|]).
  - destruct Hs as [Hs1 Hs2], Ht as [Ht1 Ht2]. split.
    + intros _. exists s, t. done.
    + intros [Hno | Hno]; [by destruct (Hno s Hs1) | by destruct (Hno t Ht1)].
  - split; [|done]. intros (s' & t' & _ & Ht' & _ & Hid). by destruct (Ht t' Ht').
  - split; [|done]. intros (s' & t' & Hs' & _ & Hid & _). by destruct (Hs s' Hs').
  - split; [|done]. intros (s' & t' & Hs' & _ & Hid & _). by destruct (Hs s' Hs').
Qed.

(** A node click followed by a click on a link with an unknown endpoint:
    the link is selected, yet the drawer still lists the neighbours and
    links of the node. *)
Lemma stale_context_example :
  let st := fold_left (clickStep sampleGraph) [NodeClick hubA; LinkClick linkAZ] noSelection in
  selectedRelationship st = Some linkAZ
  /\ selectedNode st = None
  /\ linkedNodes st = [2%positive; 3%positive]
  /\ linkedRelationships st = [10%positive].
Proof. done. Qed.

(** ** Focus *)

(** Focusing a node from the search list rebuilds the node set as a
    hover would, but only adds to the link set: the links highlighted
    before stay highlighted until, one second later, the timer hovers the
    node and the highlight becomes that of a plain hover.  The search
    drawer is closed at once. *)
Theorem focus_node_accumulates_links (graphMounted : bool) (graphType : GraphType)
    (node : CustomNode) (st : FocusState) :
  let st' := handleFocusButtonClick graphMounted graphType node st in
  highlightLinks (highlight st')
  = highlightLinks (highlight st) ∪ list_to_set (default [] (links node))
  /\ highlightLinks (highlight st) ⊆ highlightLinks (highlight st')
  /\ highlightNodes (highlight st')
     = highlightNodes (handleNodeHover (Some node) (highlight st))
  /\ hoverNode (highlight st') = Some node
  /\ rightDrawerOpen st' = false
  /\ (timers st = [] ->
        highlight (fireTimer st') = handleNodeHover (Some node) (highlight st)
        /\ timers (fireTimer st') = []).
Proof.
  intros st'. subst st'. simpl.
  assert (Hlinks : addAll (links node) (highlightLinks (highlight st))
                   = highlightLinks (highlight st) ∪ list_to_set (default [] (links node)))
    by apply addAll_spec.
  split; [exact Hlinks|]. split; [rewrite Hlinks; set_solver|].
  split; [done|]. split; [done|]. split; [done|].
  intros Hnone. unfold fireTimer. simpl. by rewrite Hnone.
Qed.

Lemma focus_node_example :
  let st := mkFocus (mkHighlight ∅ {[ 99%positive ]} None) true [] [] in
  let st' := handleFocusButtonClick true Graph2d hubA st in
  highlightLinks (highlight st') = {[ 99%positive ]} ∪ list_to_set [10%positive]
  /\ highlight (fireTimer st') = handleNodeHover (Some hubA) (highlight st)
  /\ highlightLinks (highlight (fireTimer st')) = list_to_set [10%positive].
Proof.
  intros st st'.
  destruct (focus_node_accumulates_links true Graph2d hubA st)
    as (Hlinks & _ & _ & _ & _ & Hlater).
  destruct (Hlater eq_refl) as [Hfired _].
  split; [exact Hlinks|]. split; [exact Hfired|].
  subst st'. rewrite Hfired. simpl. unfold Set_add. set_solver.
Defined.

(** Focusing a link sets the highlight a hover of that link would set,
    at once, so the delayed hover changes nothing; the search drawer is
    closed and one timer of one second is added. *)
Theorem focus_link_highlights_as_hover (graphMounted : bool) (graphType : GraphType)
    (link : CustomLink) (st : FocusState) :
  let st' := handleFocusLinkClick graphMounted graphType link st in
  highlight st' = handleLinkHover (Some link) (highlight st)
  /\ rightDrawerOpen st' = false
  /\ timers st' = timers st ++ [(1000, HoverLinkLater link)]
  /\ runLater (HoverLinkLater link) (highlight st') = highlight st'.
Proof. done. Qed.

Lemma truthyNumber_spec (c : option Q) :
  truthyNumber c = true <-> exists q, c = Some q /\ ~ (q == 0)%Q.
Proof.
  destruct c as [q|]; simpl.
  - rewrite negb_true_iff. split.
    + intros Hq. exists q. split; [done|]. intros Hz.
      apply Qeq_bool_iff in Hz. congruence.
    + intros (q' & [= <-] & Hnz). destruct (Qeq_bool q 0) eqn:E; [|done].
      apply Qeq_bool_iff in E. by destruct Hnz.
  - split; [done|]. by intros (q & [=] & _).
Qed.

Lemma midpoint_symmetric (a b : Q) : ((b + a) / 2 == (a + b) / 2)%Q.
Proof. by rewrite (Qplus_comm b a). Qed.

(** The camera target of a focused link.  There is one exactly when both
    endpoints are resolved nodes and none of their four coordinates is
    missing or 0; it is the midpoint of the endpoints, the same for the
    link read the other way round; and when there is none the focus makes
    no camera call at all. *)
Theorem focus_link_camera_target (graphMounted : bool) (graphType : GraphType)
    (link : CustomLink) (st : FocusState) :
  (linkMidpoint link = None <->
     ~ exists s t, source link = ENode s /\ target link = ENode t
                   /\ truthyNumber (x s) = true /\ truthyNumber (x t) = true
                   /\ truthyNumber (y s) = true /\ truthyNumber (y t) = true)
  /\ (forall mx my, linkMidpoint link = Some (mx, my) ->
        exists s t sx sy tx ty,
          source link = ENode s /\ target link = ENode t
          /\ x s = Some sx /\ y s = Some sy /\ x t = Some tx /\ y t = Some ty
          /\ mx = ((sx + tx) / 2)%Q /\ my = ((sy + ty) / 2)%Q
          /\ exists mx' my', linkMidpoint (reverseLink link) = Some (mx', my')
                             /\ (mx' == mx)%Q /\ (my' == my)%Q)
  /\ (linkMidpoint link = None ->
        cameraCalls (handleFocusLinkClick graphMounted graphType link st)
        = cameraCalls st)
  /\ (forall mx my, linkMidpoint link = Some (mx, my) ->
        cameraCalls (handleFocusLinkClick true Graph2d link st)
        = cameraCalls st ++ [CenterAt (Some mx) (Some my) 1000; Zoom 8 1000]
        /\ cameraCalls (handleFocusLinkClick true Graph3d link st)
           = cameraCalls st
               ++ [CameraPosition (Some mx) (Some my) 300 (Some mx) (Some my) 0 3000]
        /\ cameraCalls (handleFocusLinkClick false graphType link st) = cameraCalls st).
Proof.
  split; [|split; [|split]].
  - unfold linkMidpoint.
    destruct (source link) as [a|s], (target link) as [b|t]; simpl;
      try (split; [intros _ (? & ? & ? & ? & _); discriminate | done]).
    destruct (truthyNumber (x s)) eqn:E1, (truthyNumber (x t)) eqn:E2,
             (truthyNumber (y s)) eqn:E3, (truthyNumber (y t)) eqn:E4; simpl;
      try (split; [intros _ (s' & t' & [= <-] & [= <-] & ? & ? & ? & ?); congruence
                  | done]).
    destruct (x s) as [sx|] eqn:Hsx; [|discriminate E1].
    destruct (x t) as [tx|] eqn:Htx; [|discriminate E2].
    destruct (y s) as [sy|] eqn:Hsy; [|discriminate E3].
    destruct (y t) as [ty|] eqn:Hty; [|discriminate E4].
    split; [done|]. intros Hno. exfalso. apply Hno. exists s, t.
    rewrite Hsx, Htx, Hsy, Hty. done.
  - intros mx my Hmid. unfold linkMidpoint in *. unfold reverseLink. simpl.
    destruct (source link) as [a|s], (target link) as [b|t]; simpl in *; try done.
    destruct (truthyNumber (x s)) eqn:E1, (truthyNumber (x t)) eqn:E2,
             (truthyNumber (y s)) eqn:E3, (truthyNumber (y t)) eqn:E4;
      simpl in *; try done.
    destruct (x s) as [sx|] eqn:Hsx, (x t) as [tx|] eqn:Htx,
             (y s) as [sy|] eqn:Hsy, (y t) as [ty|] eqn:Hty; try done.
    assert (Hmx : mx = ((sx + tx) / 2)%Q) by congruence.
    assert (Hmy : my = ((sy + ty) / 2)%Q) by congruence.
    subst mx my.
    exists s, t, sx, sy, tx, ty. repeat (split; [done|]).
    eexists _, _. split; [done|]. split; apply midpoint_symmetric.
  - intros Hnone. unfold handleFocusLinkClick. simpl. rewrite Hnone.
    destruct graphMounted; by rewrite app_nil_r.
  - intros mx my Hmid. unfold handleFocusLinkClick. simpl. rewrite Hmid.
    by rewrite app_nil_r.
Qed.

(** The link between [nodeP] at (10, 20) and [nodeQ] at (30, -40) is
    centred on their midpoint; the link from [nodeA], which sits at the
    origin, moves no camera. *)
Lemma focus_link_camera_example :
  cameraCalls (handleFocusLinkClick true Graph2d linkPQ noFocus)
  = [CenterAt (Some ((10 + 30) / 2)%Q) (Some ((20 + -40) / 2)%Q) 1000; Zoom 8 1000]
  /\ cameraCalls (handleFocusLinkClick true Graph2d linkAP noFocus) = [].
Proof.
  destruct (focus_link_camera_target true Graph2d linkPQ noFocus)
    as (_ & _ & _ & Hsome).
  destruct (focus_link_camera_target true Graph2d linkAP noFocus)
    as (_ & _ & Hnone & _).
  split.
  - exact (proj1 (Hsome _ _ eq_refl)).
  - exact (Hnone eq_refl).
Defined.

(** ** Search results *)

Lemma filter_hasNeighbors (items : list SearchItem) :
  List.filter hasNeighbors items = map NodeItem (nodesAmong items).
Proof.
  induction items as [|[n|l] items IH]; simpl; [done| |done].
  unfold nodesAmong in *. simpl. destruct (neighbors n); simpl; [by rewrite IH|done].
Qed.

Lemma filter_hasEndpoints (items : list SearchItem) :
  List.filter hasEndpoints items = map LinkItem (linksAmong items).
Proof.
  induction items as [|[n|l] items IH]; simpl; [done|done|].
  unfold linksAmong in *. simpl. by rewrite IH.
Qed.

Lemma filters_apart_length {A : Type} (p q : A -> bool) (l : list A) :
  (forall a, p a = true -> q a = false) ->
  length (List.filter p l) + length (List.filter q l) <= length l.
Proof.
  intros Hpq. induction l as [|a l IH]; simpl; [lia|].
  destruct (p a) eqn:Ep.
  - rewrite (Hpq a Ep). simpl. lia.
  - destruct (q a); simpl; lia.
Qed.

(** The search list shows the matched nodes first and the matched links
    after them, each group in the rank order of the index; every matched
    link is listed, and a matched node is listed only if it carries a
    neighbours array.  The drawer opens even when nothing matched. *)
Theorem handleSearch_lists_nodes_then_links (fuse : string -> list SearchItem)
    (st : SearchState) :
  let results := fuse (searchTerm st) in
  let out := searchResults (handleSearch fuse st) in
  out = map NodeItem (nodesAmong results) ++ map LinkItem (linksAmong results)
  /\ map NodeItem (nodesAmong results) `sublist_of` results
  /\ map LinkItem (linksAmong results) `sublist_of` results
  /\ (forall l, LinkItem l ∈ results -> LinkItem l ∈ out)
  /\ (forall n, NodeItem n ∈ out <-> NodeItem n ∈ results /\ neighbors n <> None)
  /\ length out <= length results
  /\ searchDrawerOpen (handleSearch fuse st) = true.
Proof.
  intros results out. subst out. unfold handleSearch. simpl. fold results.
  rewrite <- filter_hasNeighbors, <- filter_hasEndpoints.
  split; [done|]. split; [apply filter_sublist_self|].
  split; [apply filter_sublist_self|]. split; [|split; [|split; [|done]]].
  - intros l Hl. apply elem_of_app. right.
    apply list_elem_of_In, filter_In. split; [by apply list_elem_of_In | done].
  - intros n. rewrite elem_of_app. split.
    + intros [Hin | Hin]; apply list_elem_of_In, filter_In in Hin;
        destruct Hin as [Hin Hkeep]; [|discriminate Hkeep].
      split; [by apply list_elem_of_In|]. simpl in Hkeep.
      by destruct (neighbors n).
    + intros [Hin Hnb]. left. apply list_elem_of_In, filter_In.
      split; [by apply list_elem_of_In|]. simpl. by destruct (neighbors n).
  - rewrite length_app. apply filters_apart_length.
    intros [n|l]; simpl; [done|discriminate].
Qed.

(** ** API drawer *)

(** Opening the API drawer switches on text units and communities, and
    covariates when the dataset has any, so local and global search are
    both available afterwards and covariates is never on without text
    units; the documents flag is not touched, and closing the drawer
    changes no flag. *)
Theorem toggleApiDrawer_enables_search (props : CategoryProps) :
  let opened := fst (toggleApiDrawer true props) in
  localSearchEnabled opened = true
  /\ globalSearchEnabled opened = true
  /\ implb (includeCovariates (flags opened)) (includeTextUnits (flags opened)) = true
  /\ includeDocuments (flags opened) = includeDocuments (flags props)
  /\ (hasCovariates props = false ->
        includeCovariates (flags opened) = includeCovariates (flags props))
  /\ toggleApiDrawer false props = (props, false).
Proof.
  destruct props as [[d t c v] hd ht hc hv]. unfold localSearchEnabled.
  destruct hv, v; simpl; repeat split; done.
Qed.

(** Opening the drawer is not held back by a stored search result: the
    check boxes are disabled then, yet the flags change. *)
Theorem toggleApiDrawer_bypasses_disabled (props : CategoryProps)
    (result : SearchResult) (c : Category) :
  includeTextUnits (flags props) = false ->
  clickCheckbox c (Some result) props = props
  /\ includeTextUnits (flags (fst (toggleApiDrawer true props))) = true
  /\ fst (toggleApiDrawer true props) <> props.
Proof.
  intros Hoff. split; [|split].
  - unfold clickCheckbox, disabled. simpl. by rewrite orb_true_r.
  - simpl. by destruct (hasCovariates props).
  - intros Heq.
    assert (Ht : includeTextUnits (flags (fst (toggleApiDrawer true props))) = true)
      by (simpl; by destruct (hasCovariates props)).
    rewrite Heq, Hoff in Ht. discriminate.
Qed.

Lemma toggleApiDrawer_bypasses_example :
  clickCheckbox TextUnits (Some (mkSearchResult "" None)) sampleProps = sampleProps
  /\ includeTextUnits (flags (fst (toggleApiDrawer true sampleProps))) = true
  /\ fst (toggleApiDrawer true sampleProps) <> sampleProps.
Proof.
  apply (toggleApiDrawer_bypasses_disabled sampleProps (mkSearchResult "" None) TextUnits).
  reflexivity.
Defined.

(** ** Hover sequences *)

Lemma pointerHovers_snoc (callback : HoverCallback) (events : list HoverEvent)
    (t : nat) (node : option CustomNode) (st : HighlightState) :
  exists before,
    pointerHovers (Some callback) (events ++ [(t, node)]) st
    = pointerHovers (Some callback) events st ++ [callback node before].
Proof.
  revert st. induction events as [|[t0 n0] events IH]; intros st; simpl.
  - by exists st.
  - destruct (IH (callback n0 st)) as [before Hbefore].
    exists before. by rewrite Hbefore.
Qed.

(** Whatever was hovered before, the highlight after a series of pointer
    hovers is the one of the last hover alone; and with highlighting
    switched off, hovers recompute nothing. *)
Theorem hover_last_wins (events : list HoverEvent) (t : nat)
    (node : option CustomNode) (st st0 : HighlightState) :
  last (pointerHovers (onNodeHover true) (events ++ [(t, node)]) st)
  = Some (handleNodeHover node st0)
  /\ pointerHovers (onNodeHover false) events st = [].
Proof.
  split.
  - destruct (pointerHovers_snoc handleNodeHover events t node st)
      as [before Hbefore].
    unfold onNodeHover. unfold HoverCallback in Hbefore.
    rewrite Hbefore, last_snoc. done.
  - unfold onNodeHover.
    revert st. induction events as [|[t0 n0] events IH]; intros st; simpl; done.
Qed.
